(** * battery-watch: change detection, sliding window and exit histograms

    Shallow embedding of [scripts/prototyping/battery-watch.py].

    Conventions of the embedding.
    - Python [int] is [Z].  Python [float] is idealised as an exact
      rational ([Q]); numeric results are therefore compared with [==]
      ([Qeq]), and rounding error, infinities and NaN are outside the
      model.  A statement about the value of a sum or a quotient holds
      for the exact value; statements that compare, sort, count or bucket
      recorded values, or that equate two occurrences of one expression,
      do not depend on it.
    - One iteration of the [while True] loop consumes one [sample]: the
      values the files and the monotonic clock would return in that
      iteration.  [charge_now] is read in every iteration; the clock, the
      voltage and the energy counter are only consulted after a change.
    - Exceptions are explicit: a computation returns [Ok v] or [Raise e],
      for the exceptions that the script's divisions, subscripts and
      [max] raise on finite numbers.  [OverflowError] (an [int] too large
      for a [float]), the errors of [int()] on an infinity or a NaN, and
      the failure to read or parse a file in [read_int] are outside the
      model: the readings are given as the integers already read.
    - [print] is modelled by the structured value that is printed (the
      arguments of the f-string), not by its formatted text; the wall-clock
      timestamp of a report line and the banner printed at start-up are
      left out.
    - The SIGINT handler is run between two iterations of the loop. *)

From Stdlib Require Import ZArith QArith Qcanon Qround Qabs Lia Lqa Ascii String List.
From Stdlib Require Import Sorting.Sorted Sorting.Permutation.
From stdpp Require Import base option list gmap.
From Equations Require Import Equations.

Local Open Scope Z_scope.

(** ** Exceptions *)

(** The exceptions of the modelled operations: [ZeroDivisionError] of [/]
    and [//], [IndexError] of a subscript, [ValueError] of [max] on an
    empty sequence. *)
Inductive exn : Set :=
| ZeroDivisionError
| IndexError
| ValueError.

Inductive result (A : Type) : Type :=
| Ok (a : A)
| Raise (e : exn).
Arguments Ok {A} a.
Arguments Raise {A} e.

#[global] Instance result_ret : MRet result := fun A a => Ok a.
#[global] Instance result_bind : MBind result := fun A B f m =>
  match m with
  | Ok a => f a
  | Raise e => Raise e
  end.
#[global] Instance result_fmap : FMap result := fun A B f m =>
  match m with
  | Ok a => Ok (f a)
  | Raise e => Raise e
  end.

(** ** Constants of the script *)

Definition POLL_S : Q := 1 # 1000.
Definition HIST_BUCKET_MS : Z := 100.
Definition AVG_WINDOW : Z := 30.
Definition DELTA_BUCKET_W : Q := 1 # 2.
Definition bar_w : Z := 40.

(** The literal [3.6e-6]. *)
Definition c3_6e_6 : Q := 36 # 10000000.

(** ** Python primitives *)

(** [a / b] on floats. *)
Definition truediv (a b : Q) : result Q :=
  if Qeq_bool b 0 then Raise ZeroDivisionError else Ok (a / b)%Q.

(** [a > 0] on floats. *)
Definition Qpos_bool (a : Q) : bool := negb (Qle_bool a 0).

(** [a < 0] on floats. *)
Definition Qneg_bool (a : Q) : bool := negb (Qle_bool 0 a).

(** [a // b] on floats: the floor of the quotient, as a float. *)
Definition floordiv (a b : Q) : result Q :=
  if Qeq_bool b 0 then Raise ZeroDivisionError
  else Ok (inject_Z (Qfloor (a / b)))%Q.

(** [int(x)]: truncation toward zero. *)
Definition int (x : Q) : Z :=
  if Qle_bool 0 x then Qfloor x else Qceiling x.

(** [round(x)] for a float [x]: nearest integer, ties to even. *)
Definition round (x : Q) : Z :=
  let f := Qfloor x in
  match ((x - inject_Z f) ?= (1 # 2))%Q with
  | Lt => f
  | Gt => f + 1
  | Eq => if Z.even f then f else f + 1
  end.

(** [len(l)]. *)
Definition len {A} (l : list A) : Z := Z.of_nat (length l).

(** [sum(l)] for floats and for ints: a left fold from [0].  On floats
    this is the exact sum, where Python rounds after each addition. *)
Definition sumQ (l : list Q) : Q := foldl Qplus 0%Q l.
Definition sumZ (l : list Z) : Z := foldl Z.add 0 l.

(** [max(l)]: raises on the empty sequence. *)
Definition max_ (l : list Z) : result Z :=
  match l with
  | [] => Raise ValueError
  | x :: xs => Ok (foldl Z.max x xs)
  end.

(** [l[i]]: a negative index counts from the end. *)
Definition index {A} (l : list A) (i : Z) : result A :=
  let j := if i <? 0 then len l + i else i in
  if j <? 0 then Raise IndexError
  else match l !! Z.to_nat j with
       | Some x => Ok x
       | None => Raise IndexError
       end.

(** [range(start, stop, step)] for a positive [step]. *)
Definition range (start stop step : Z) : list Z :=
  (fun k => start + k * step) <$> seqZ 0 ((stop - start + step - 1) `div` step).

(** ["#" * n]. *)
Definition hashes (n : Z) : string :=
  String.concat "" (replicate (Z.to_nat n) "#"%string).

(** [sorted(l)] on floats: a stable insertion sort. *)
Fixpoint insert_sorted (x : Q) (l : list Q) : list Q :=
  match l with
  | [] => [x]
  | y :: l' => if Qle_bool x y then x :: l else y :: insert_sorted x l'
  end.

Definition sorted (l : list Q) : list Q := foldr insert_sorted [] l.

(** ** Program state *)

(** A window entry: [(delta_uah, dt_ms, voltage_uv, rapl_delta_uj)]. *)
Definition entry : Type := Z * Q * Z * Z.

Record state : Type := {
  intervals : list Q;
  power_deltas : list Q;
  window : list entry;
  prev_charge : Z;
  prev_rapl : Z;
  prev_time : Q;
  sample_num : Z
}.

(** What one loop iteration reads from the outside world. *)
Record sample : Type := {
  charge_now : Z;
  monotonic : Q;
  voltage_now : Z;
  energy_uj : Z
}.

(** The values printed in one report line. *)
Record report : Type := {
  r_sample_num : Z;
  r_dt_ms : Q;
  r_charge : Z;
  r_delta : Z;
  r_voltage : Z;
  r_power_w : Q;
  r_avg_w : Q;
  r_rapl_w : Q;
  r_rapl_avg_w : Q;
  r_power_delta : Q
}.

(** The start of [main]: the baseline readings. *)
Definition init (charge rapl : Z) (now : Q) : state :=
  {| intervals := []; power_deltas := []; window := [];
     prev_charge := charge; prev_rapl := rapl; prev_time := now;
     sample_num := 0 |}.

(** ** The body of the polling loop *)

(** [window.append(e)] followed by the bounded eviction. *)
Definition push_window (w : list entry) (e : entry) : list entry :=
  let w := w ++ [e] in
  if AVG_WINDOW <? len w then drop 1 w else w.

Definition sum_energy (w : list entry) : Q :=
  sumQ (map (fun '(d, _, v, _) => inject_Z (d * v) * c3_6e_6)%Q w).

Definition sum_dt (w : list entry) : Q :=
  sumQ (map (fun '(_, t, _, _) => t) w).

Definition sum_rapl (w : list entry) : Z :=
  sumZ (map (fun '(_, _, _, r) => r) w).

Definition inst_rapl_w (rapl_delta_uj : Z) (dt_ms : Q) : result Q :=
  if Qpos_bool dt_ms
  then truediv (inject_Z rapl_delta_uj) (dt_ms * 1000)%Q
  else Ok 0%Q.

Definition inst_power_w (delta voltage : Z) (dt_ms : Q) : result Q :=
  if Qpos_bool dt_ms
  then Qabs <$> truediv (inject_Z (delta * voltage) * c3_6e_6)%Q dt_ms
  else Ok 0%Q.

Definition window_avg_w (w : list entry) : result Q :=
  if Qpos_bool (sum_dt w)
  then Qabs <$> truediv (sum_energy w) (sum_dt w)
  else Ok 0%Q.

Definition window_rapl_avg_w (w : list entry) : result Q :=
  if Qpos_bool (sum_dt w)
  then truediv (inject_Z (sum_rapl w)) (sum_dt w * 1000)%Q
  else Ok 0%Q.

(** One iteration: [None] is the [continue] branch, [Some r] the report
    line printed for a change event. *)
Definition poll (st : state) (s : sample) : result (state * option report) :=
  let charge := charge_now s in
  if charge =? prev_charge st then Ok (st, None)
  else
    let now := monotonic s in
    let dt_ms := ((now - prev_time st) * 1000)%Q in
    let delta := charge - prev_charge st in
    let voltage := voltage_now s in
    let rapl := energy_uj s in
    let rapl_delta_uj := rapl - prev_rapl st in
    rapl_w ← inst_rapl_w rapl_delta_uj dt_ms;
    power_w ← inst_power_w delta voltage dt_ms;
    let sample_num' := sample_num st + 1 in
    let intervals' := intervals st ++ [dt_ms] in
    let window' := push_window (window st) (delta, dt_ms, voltage, rapl_delta_uj) in
    avg_w ← window_avg_w window';
    rapl_avg_w ← window_rapl_avg_w window';
    let power_deltas' :=
      if AVG_WINDOW <=? sample_num'
      then power_deltas st ++ [(avg_w - rapl_avg_w)%Q]
      else power_deltas st in
    Ok ({| intervals := intervals'; power_deltas := power_deltas';
           window := window'; prev_charge := charge; prev_rapl := rapl;
           prev_time := now; sample_num := sample_num' |},
        Some {| r_sample_num := sample_num'; r_dt_ms := dt_ms;
                r_charge := charge; r_delta := delta; r_voltage := voltage;
                r_power_w := power_w; r_avg_w := avg_w; r_rapl_w := rapl_w;
                r_rapl_avg_w := rapl_avg_w;
                r_power_delta := (avg_w - rapl_avg_w)%Q |}).

(** The loop over a finite prefix of iterations; the printed report lines
    are collected in order. *)
Fixpoint run (st : state) (ss : list sample) : result (state * list report) :=
  match ss with
  | [] => Ok (st, [])
  | s :: ss' =>
      '(st1, o) ← poll st s;
      '(st2, rs) ← run st1 ss';
      Ok (st2, match o with Some r => r :: rs | None => rs end)
  end.

(** ** The SIGINT handler *)

(** What [show_histogram] prints, one constructor per [print] call. *)
Inductive line : Type :=
| Text (s : string)
| IntervalTitle (n : Z)
| IntervalStats (mn med mx mean : Q)
| IntervalRow (b : Z) (bar : string) (count : Z)
| DeltaTitle (nd warmup : Z)
| DeltaStats (mn med mx mean : Q)
| DeltaRow (b : Q) (bar : string) (count : Z).

Definition nl : string := String "010"%char "".
Definition rule : string := String.concat "" (replicate 60 "="%string).
Definition no_intervals_msg : string := (nl ++ "No intervals recorded.")%string.

(** A [for] loop whose body may raise, threading the loop state. *)
Fixpoint for_each {A S} (body : S -> A -> result S) (s : S) (l : list A) : result S :=
  match l with
  | [] => Ok s
  | x :: l' => s' ← body s x; for_each body s' l'
  end.

(** [int(iv // HIST_BUCKET_MS) * HIST_BUCKET_MS]. *)
Definition interval_bucket (iv : Q) : result Z :=
  q ← floordiv iv (inject_Z HIST_BUCKET_MS);
  Ok (int q * HIST_BUCKET_MS).

(** [buckets[b] = buckets.get(b, 0) + 1]. *)
Definition tally {K} `{Countable K} (m : gmap K Z) (b : K) : gmap K Z :=
  <[b := default 0 (m !! b) + 1]> m.

Definition count_interval (buckets : gmap Z Z) (iv : Q) : result (gmap Z Z) :=
  b ← interval_bucket iv;
  Ok (tally buckets b).

(** [max(m.values())]. *)
Definition max_values {K} `{Countable K} (m : gmap K Z) : result Z :=
  max_ ((map_to_list m).*2).

(** ["#" * round(count / max_count * bar_w) if count else ""]. *)
Definition bar_of (count max_count : Z) : result string :=
  if count =? 0 then Ok ""%string
  else q ← truediv (inject_Z count) (inject_Z max_count);
       Ok (hashes (round (q * inject_Z bar_w))).

Definition interval_row (buckets : gmap Z Z) (max_count : Z) (b : Z) : result line :=
  let count := default 0 (buckets !! b) in
  bar ← bar_of count max_count;
  Ok (IntervalRow b bar count).

(** Lines 44-63: summary and histogram of the update intervals. *)
Definition interval_section (ivs : list Q) : result (list line) :=
  let s := sorted ivs in
  let n := len s in
  s0 ← index s 0;
  med ← index s (n `div` 2);
  s_last ← index s (-1);
  mean ← truediv (sumQ s) (inject_Z n);
  lo ← interval_bucket s0;
  hi ← (b ← interval_bucket s_last; Ok (b + HIST_BUCKET_MS));
  buckets ← for_each count_interval ∅ ivs;
  max_count ← (if decide (buckets = ∅) then Ok 1 else max_values buckets);
  rows ← mapM (interval_row buckets max_count) (range lo (hi + 1) HIST_BUCKET_MS);
  Ok ([Text (nl ++ nl ++ rule); IntervalTitle n; IntervalStats s0 med s_last mean;
       Text ""] ++ rows ++ [Text ""]).

(** The bucket of a power delta (lines 80-83). *)
Definition delta_bucket (d : Q) : result Q :=
  if Qneg_bool d
  then q ← floordiv (- d) DELTA_BUCKET_W; Ok (- (q + 1) * DELTA_BUCKET_W)%Q
  else q ← floordiv d DELTA_BUCKET_W; Ok (inject_Z (int q) * DELTA_BUCKET_W)%Q.

Definition count_delta (dbuckets : gmap Qc Z) (d : Q) : result (gmap Qc Z) :=
  b ← delta_bucket d;
  Ok (tally dbuckets (Q2Qc b)).

Definition delta_row (dbuckets : gmap Qc Z) (dmax : Z) (b : Q) : result line :=
  let count := default 0 (dbuckets !! Q2Qc b) in
  bar ← bar_of count dmax;
  Ok (DeltaRow b bar count).

(** The number of iterations the [while b <= hi + DELTA_BUCKET_W / 2] loop
    still has to make from [b]; it is the termination measure of the loop. *)
Definition delta_iters (hi b : Q) : nat :=
  Z.to_nat (Qfloor ((hi + DELTA_BUCKET_W / 2 - b) / DELTA_BUCKET_W) + 1).

Lemma Qfloor_unique (x : Q) (z : Z) :
  (inject_Z z <= x)%Q -> (x < inject_Z (z + 1))%Q -> Qfloor x = z.
Proof.
  intros Hlo Hhi.
  pose proof (Qfloor_le x) as Hf. pose proof (Qlt_floor x) as Hc.
  assert (H1 : (inject_Z z < inject_Z (Qfloor x + 1))%Q) by (eapply Qle_lt_trans; eauto).
  assert (H2 : (inject_Z (Qfloor x) < inject_Z (z + 1))%Q) by (eapply Qle_lt_trans; eauto).
  rewrite <- Zlt_Qlt in H1, H2. lia.
Qed.

Lemma Qfloor_plus_Z (x : Q) (n : Z) : Qfloor (x + inject_Z n) = Qfloor x + n.
Proof.
  pose proof (Qfloor_le x) as Hf. pose proof (Qlt_floor x) as Hc.
  apply Qfloor_unique.
  - rewrite inject_Z_plus. lra.
  - replace (Qfloor x + n + 1) with ((Qfloor x + 1) + n) by lia.
    rewrite inject_Z_plus. lra.
Qed.

Lemma delta_iters_step hi b :
  Qle_bool b (hi + DELTA_BUCKET_W / 2) = true ->
  (delta_iters hi (b + DELTA_BUCKET_W) < delta_iters hi b)%nat.
Proof.
  intros Hle. apply Qle_bool_iff in Hle. unfold delta_iters.
  assert (E : ((hi + DELTA_BUCKET_W / 2 - (b + DELTA_BUCKET_W)) / DELTA_BUCKET_W
               == (hi + DELTA_BUCKET_W / 2 - b) / DELTA_BUCKET_W + inject_Z (-1))%Q)
    by (unfold DELTA_BUCKET_W; field).
  rewrite E, Qfloor_plus_Z.
  assert (0 <= Qfloor ((hi + DELTA_BUCKET_W / 2 - b) / DELTA_BUCKET_W)).
  { change 0 with (Qfloor (inject_Z 0)). apply Qfloor_resp_le.
    unfold DELTA_BUCKET_W in *. apply Qle_shift_div_l; [reflexivity |].
    change (inject_Z 0) with 0%Q. lra. }
  lia.
Qed.

Definition inspect {A} (a : A) : {b : A | a = b} := exist _ a eq_refl.

(** Lines 86-91: the [while] loop printing the rows from [b] up to [hi]. *)
Equations delta_rows (dbuckets : gmap Qc Z) (dmax : Z) (hi b : Q) : result (list line)
  by wf (delta_iters hi b) lt :=
  delta_rows dbuckets dmax hi b with inspect (Qle_bool b (hi + DELTA_BUCKET_W / 2)) := {
    | exist _ true Hle =>
        row ← delta_row dbuckets dmax b;
        rows ← delta_rows dbuckets dmax hi (b + DELTA_BUCKET_W)%Q;
        Ok (row :: rows)
    | exist _ false _ => Ok []
  }.
Next Obligation. apply delta_iters_step. assumption. Qed.

(** Lines 66-92: summary and histogram of the power deltas. *)
Definition delta_section (pds : list Q) : result (list line) :=
  let sd := sorted pds in
  let nd := len sd in
  sd0 ← index sd 0;
  med ← index sd (nd `div` 2);
  sd_last ← index sd (-1);
  mean ← truediv (sumQ sd) (inject_Z nd);
  lo ← (q ← floordiv sd0 DELTA_BUCKET_W; Ok (inject_Z (int q) * DELTA_BUCKET_W)%Q);
  lo ← (if Qneg_bool sd0
        then q ← floordiv (- sd0) DELTA_BUCKET_W; Ok (- (q + 1) * DELTA_BUCKET_W)%Q
        else Ok lo);
  hi ← (q ← floordiv sd_last DELTA_BUCKET_W;
        Ok (inject_Z (int (q + 1)) * DELTA_BUCKET_W)%Q);
  dbuckets ← for_each count_delta ∅ pds;
  dmax ← max_values dbuckets;
  rows ← delta_rows dbuckets dmax hi lo;
  Ok ([Text rule; DeltaTitle nd AVG_WINDOW; DeltaStats sd0 med sd_last mean;
       Text ""] ++ rows ++ [Text ""]).

(** [show_histogram]: the printed lines and the status given to
    [sys.exit]. *)
Definition show_histogram (st : state) : result (list line * Z) :=
  match intervals st with
  | [] => Ok ([Text no_intervals_msg], 0)
  | _ :: _ =>
      out ← interval_section (intervals st);
      dout ← match power_deltas st with
             | [] => Ok []
             | _ :: _ => delta_section (power_deltas st)
             end;
      Ok (out ++ dout, 0)
  end.

(** The whole program on a finite prefix of iterations followed by the
    interrupt: the report lines, then the handler's output and status. *)
Definition main (charge0 rapl0 : Z) (t0 : Q) (ss : list sample)
  : result (list report * (list line * Z)) :=
  '(st, rs) ← run (init charge0 rapl0 t0) ss;
  h ← show_histogram st;
  Ok (rs, h).

(** ** Derived forms and specification functions *)

(** [v if d > 0 else 0]. *)
Definition guard_pos (d v : Q) : Q := if Qpos_bool d then v else 0%Q.

(** The state after a change event. *)
Definition next_state (st : state) (s : sample) : state :=
  let dt_ms := ((monotonic s - prev_time st) * 1000)%Q in
  let delta := charge_now s - prev_charge st in
  let rapl_delta_uj := energy_uj s - prev_rapl st in
  let window' := push_window (window st) (delta, dt_ms, voltage_now s, rapl_delta_uj) in
  let avg_w := guard_pos (sum_dt window') (Qabs (sum_energy window' / sum_dt window')) in
  let rapl_avg_w :=
    guard_pos (sum_dt window') (inject_Z (sum_rapl window') / (sum_dt window' * 1000)) in
  {| intervals := intervals st ++ [dt_ms];
     power_deltas :=
       if AVG_WINDOW <=? sample_num st + 1
       then power_deltas st ++ [(avg_w - rapl_avg_w)%Q]
       else power_deltas st;
     window := window';
     prev_charge := charge_now s;
     prev_rapl := energy_uj s;
     prev_time := monotonic s;
     sample_num := sample_num st + 1 |}.

(** The report line of a change event. *)
Definition report_of (st : state) (s : sample) : report :=
  let dt_ms := ((monotonic s - prev_time st) * 1000)%Q in
  let delta := charge_now s - prev_charge st in
  let rapl_delta_uj := energy_uj s - prev_rapl st in
  let window' := push_window (window st) (delta, dt_ms, voltage_now s, rapl_delta_uj) in
  let avg_w := guard_pos (sum_dt window') (Qabs (sum_energy window' / sum_dt window')) in
  let rapl_avg_w :=
    guard_pos (sum_dt window') (inject_Z (sum_rapl window') / (sum_dt window' * 1000)) in
  {| r_sample_num := sample_num st + 1;
     r_dt_ms := dt_ms;
     r_charge := charge_now s;
     r_delta := delta;
     r_voltage := voltage_now s;
     r_power_w := guard_pos dt_ms (Qabs (inject_Z (delta * voltage_now s) * c3_6e_6 / dt_ms));
     r_avg_w := avg_w;
     r_rapl_w := guard_pos dt_ms (inject_Z rapl_delta_uj / (dt_ms * 1000));
     r_rapl_avg_w := rapl_avg_w;
     r_power_delta := (avg_w - rapl_avg_w)%Q |}.

(** The number of readings that differ from the reading before them,
    [prev] being the reading before the first one. *)
Fixpoint changes (prev : Z) (readings : list Z) : nat :=
  match readings with
  | [] => 0
  | c :: cs => ((if Z.eqb c prev then 0 else 1) + changes c cs)%nat
  end.

(** The tuple appended to the window at each change event of a run, in
    arrival order; [c], [r] and [t] are the previously recorded charge,
    energy counter and time. *)
Fixpoint events (c r : Z) (t : Q) (ss : list sample) : list entry :=
  match ss with
  | [] => []
  | s :: ss' =>
      if charge_now s =? c then events c r t ss'
      else (charge_now s - c, ((monotonic s - t) * 1000)%Q, voltage_now s, energy_uj s - r)
             :: events (charge_now s) (energy_uj s) (monotonic s) ss'
  end.

(** The iterations of a run that are change events: those whose reading
    differs from the reading before it, [c] being the reading before the
    first one. *)
Fixpoint change_polls (c : Z) (ss : list sample) : list sample :=
  match ss with
  | [] => []
  | s :: ss' =>
      if charge_now s =? c then change_polls c ss'
      else s :: change_polls (charge_now s) ss'
  end.

(** The intervals between successive clock readings [ts], the first one
    being measured from [t]: [(t1 - t) * 1000, (t2 - t1) * 1000, ...]. *)
Definition elapsed_ms (t : Q) (ts : list Q) : list Q :=
  zip_with (fun t' t'' => ((t'' - t') * 1000)%Q) (t :: ts) ts.

(** The most recent [n] elements of a history. *)
Definition last_n {A} (n : nat) (l : list A) : list A := drop (length l - n) l.

(** How often the key [b] occurs in a list of keys. *)
Definition occurrences {K} `{Countable K} (b : K) (bs : list K) : Z :=
  len (filter (b =.) bs).

(** The bucket of an interval: [floor(iv / HIST_BUCKET_MS) * HIST_BUCKET_MS]. *)
Definition bucket_of (iv : Q) : Z :=
  Qfloor (iv / inject_Z HIST_BUCKET_MS) * HIST_BUCKET_MS.

(** The number of intervals of [ivs] that fall into bucket [b]. *)
Definition count_in (ivs : list Q) (b : Z) : Z := occurrences b (bucket_of <$> ivs).

(** The bar printed for a bucket holding [count] of the intervals when the
    fullest bucket holds [max_count]. *)
Definition bar_str (count max_count : Z) : string :=
  if count =? 0 then ""%string
  else hashes (round (inject_Z count / inject_Z max_count * inject_Z bar_w)).

Definition row_of (ivs : list Q) (max_count : Z) (b : Z) : line :=
  IntervalRow b (bar_str (count_in ivs b) max_count) (count_in ivs b).

(** The four lines printed before the rows. *)
Definition interval_header (n : Z) (mn med mx mean : Q) : list line :=
  [Text (nl ++ nl ++ rule); IntervalTitle n; IntervalStats mn med mx mean; Text ""].

(** The histogram rows of an output: bucket, bar and count. *)
Definition interval_rows (out : list line) : list (Z * string * Z) :=
  omap (fun l => match l with
                 | IntervalRow b bar count => Some (b, bar, count)
                 | _ => None
                 end) out.

(** The buckets from the one holding [mn] up to the one holding [mx],
    every [HIST_BUCKET_MS]. *)
Definition buckets_between (mn mx : Q) : list Z :=
  (fun k => bucket_of mn + k * HIST_BUCKET_MS)
    <$> seqZ 0 ((bucket_of mx - bucket_of mn) `div` HIST_BUCKET_MS + 1).

(** The statement that the printed rows are exactly the buckets from the
    one of the minimum [mn] to the one of the maximum [mx]. *)
Definition rows_min_to_max (ivs : list Q) (mn mx : Q) : Prop :=
  exists out, interval_section ivs = Ok out /\
              (interval_rows out).*1.*1 = buckets_between mn mx.

Definition is_delta_line (l : line) : bool :=
  match l with
  | DeltaTitle _ _ | DeltaStats _ _ _ _ | DeltaRow _ _ _ => true
  | _ => false
  end.

(** The polls after the initial reading 100: the readings 100, 105, 105
    and 110, the two changes being seen 1000 ms and 2000 ms after the
    baseline [t0], at 12 V, with the energy counter 50000 uJ further each
    time.  The polls without a change come half a second earlier. *)
Definition scenario (r0 : Z) (t0 : Q) : list sample :=
  [ {| charge_now := 100; monotonic := t0 + (1 # 2); voltage_now := 12000000;
       energy_uj := r0 + 25000 |};
    {| charge_now := 105; monotonic := t0 + 1; voltage_now := 12000000;
       energy_uj := r0 + 50000 |};
    {| charge_now := 105; monotonic := t0 + (3 # 2); voltage_now := 12000000;
       energy_uj := r0 + 75000 |};
    {| charge_now := 110; monotonic := t0 + 2; voltage_now := 12000000;
       energy_uj := r0 + 100000 |} ]%Q.

(** The bucket of [v] for the width [w] under the mathematical floor:
    [floor(v / w) * w]. *)
Definition floor_bucket (w v : Q) : Q := (inject_Z (Qfloor (v / w)) * w)%Q.

(** The bucket the code assigns to a power delta. *)
Definition dbucket_of (d : Q) : Q :=
  if Qneg_bool d
  then (- (inject_Z (Qfloor (- d / DELTA_BUCKET_W)) + 1) * DELTA_BUCKET_W)%Q
  else floor_bucket DELTA_BUCKET_W d.

(** The four lines printed before the rows of the power-delta histogram. *)
Definition delta_header (nd : Z) (mn med mx mean : Q) : list line :=
  [Text rule; DeltaTitle nd AVG_WINDOW; DeltaStats mn med mx mean; Text ""].

(** Thirty change events, one per second: the charge alternates between
    105 and 100 at 12 V, so that the energy terms of the window cancel,
    while the energy counter advances by 500000 uJ each time.  The
    windowed averages at the thirtieth event are 0 W and 0.5 W. *)
Definition boundary_run : list sample :=
  (fun k => {| charge_now := if Z.even k then 100 else 105;
               monotonic := inject_Z k;
               voltage_now := 12000000;
               energy_uj := 500000 * k |}) <$> seqZ 1 30.

(** The rows of the power-delta histogram: bucket (in lowest terms) and
    count. *)
Definition delta_rows_of (out : list line) : list (Q * Z) :=
  omap (fun l => match l with
                 | DeltaRow b _ count => Some (Qred b, count)
                 | _ => None
                 end) out.

(** The number of power deltas the code counts in the bucket [b]. *)
Definition dcount_in (pds : list Q) (b : Q) : Z :=
  occurrences (Q2Qc b) ((fun d => Q2Qc (dbucket_of d)) <$> pds).

(** * Auxiliary lemmas *)

(** ** Arithmetic of the primitives *)

Lemma Qpos_bool_true (a : Q) : Qpos_bool a = true <-> (0 < a)%Q.
Proof.
  unfold Qpos_bool. rewrite negb_true_iff.
  split; intros H.
  - apply Qnot_le_lt. intros Hle. apply Qle_bool_iff in Hle. congruence.
  - destruct (Qle_bool a 0) eqn:E; [|reflexivity].
    apply Qle_bool_iff in E. lra.
Qed.

Lemma Qpos_bool_false (a : Q) : Qpos_bool a = false <-> (a <= 0)%Q.
Proof.
  unfold Qpos_bool. rewrite negb_false_iff. apply Qle_bool_iff.
Qed.

Lemma Qneg_bool_true (a : Q) : Qneg_bool a = true <-> (a < 0)%Q.
Proof.
  unfold Qneg_bool. rewrite negb_true_iff.
  split; intros H.
  - apply Qnot_le_lt. intros Hle. apply Qle_bool_iff in Hle. congruence.
  - destruct (Qle_bool 0 a) eqn:E; [|reflexivity].
    apply Qle_bool_iff in E. lra.
Qed.

Lemma Qneg_bool_false (a : Q) : Qneg_bool a = false <-> (0 <= a)%Q.
Proof.
  unfold Qneg_bool. rewrite negb_false_iff. apply Qle_bool_iff.
Qed.

Lemma truediv_Ok (a b : Q) : ~ (b == 0)%Q -> truediv a b = Ok (a / b)%Q.
Proof.
  intros Hb. unfold truediv.
  destruct (Qeq_bool b 0) eqn:E; [|reflexivity].
  apply Qeq_bool_iff in E. contradiction.
Qed.

Lemma truediv_zero (a b : Q) : (b == 0)%Q -> truediv a b = Raise ZeroDivisionError.
Proof.
  intros Hb. unfold truediv.
  apply Qeq_bool_iff in Hb. now rewrite Hb.
Qed.

Lemma floordiv_Ok (a b : Q) :
  ~ (b == 0)%Q -> floordiv a b = Ok (inject_Z (Qfloor (a / b))).
Proof.
  intros Hb. unfold floordiv.
  destruct (Qeq_bool b 0) eqn:E; [|reflexivity].
  apply Qeq_bool_iff in E. contradiction.
Qed.

Lemma inject_Z_nonzero (z : Z) : z <> 0 -> ~ (inject_Z z == 0)%Q.
Proof.
  intros Hz H. apply Hz. now apply (proj1 (inject_Z_injective z 0)).
Qed.

Lemma int_inject_Z (z : Z) : int (inject_Z z) = z.
Proof.
  unfold int, Qceiling. destruct (Qle_bool 0 (inject_Z z)).
  - apply Qfloor_Z.
  - change (- inject_Z z)%Q with (inject_Z (- z)). rewrite Qfloor_Z. lia.
Qed.

(** ** The guarded power computations never raise *)

Lemma guard_pos_zero (d v : Q) : (d <= 0)%Q -> guard_pos d v = 0%Q.
Proof.
  intros H. unfold guard_pos. apply Qpos_bool_false in H. now rewrite H.
Qed.

Lemma inst_rapl_w_eq (r : Z) (dt : Q) :
  inst_rapl_w r dt = Ok (guard_pos dt (inject_Z r / (dt * 1000))).
Proof.
  unfold inst_rapl_w, guard_pos. destruct (Qpos_bool dt) eqn:E; [|reflexivity].
  apply Qpos_bool_true in E. apply truediv_Ok. lra.
Qed.

Lemma inst_power_w_eq (d v : Z) (dt : Q) :
  inst_power_w d v dt = Ok (guard_pos dt (Qabs (inject_Z (d * v) * c3_6e_6 / dt))).
Proof.
  unfold inst_power_w, guard_pos. destruct (Qpos_bool dt) eqn:E; [|reflexivity].
  apply Qpos_bool_true in E. rewrite truediv_Ok by lra. reflexivity.
Qed.

Lemma window_avg_w_eq (w : list entry) :
  window_avg_w w = Ok (guard_pos (sum_dt w) (Qabs (sum_energy w / sum_dt w))).
Proof.
  unfold window_avg_w, guard_pos. destruct (Qpos_bool (sum_dt w)) eqn:E; [|reflexivity].
  apply Qpos_bool_true in E. rewrite truediv_Ok by lra. reflexivity.
Qed.

Lemma window_rapl_avg_w_eq (w : list entry) :
  window_rapl_avg_w w
  = Ok (guard_pos (sum_dt w) (inject_Z (sum_rapl w) / (sum_dt w * 1000))).
Proof.
  unfold window_rapl_avg_w, guard_pos.
  destruct (Qpos_bool (sum_dt w)) eqn:E; [|reflexivity].
  apply Qpos_bool_true in E. apply truediv_Ok. lra.
Qed.

(** ** The two branches of one iteration *)

Lemma poll_same (st : state) (s : sample) :
  charge_now s = prev_charge st -> poll st s = Ok (st, None).
Proof.
  intros H. unfold poll. apply Z.eqb_eq in H. now rewrite H.
Qed.

Lemma poll_changed (st : state) (s : sample) :
  charge_now s <> prev_charge st ->
  poll st s = Ok (next_state st s, Some (report_of st s)).
Proof.
  intros H. unfold poll. apply Z.eqb_neq in H. rewrite H.
  rewrite inst_rapl_w_eq, inst_power_w_eq. cbn [mbind result_bind].
  rewrite window_avg_w_eq, window_rapl_avg_w_eq. reflexivity.
Qed.

Lemma poll_cases (st : state) (s : sample) :
  (charge_now s = prev_charge st /\ poll st s = Ok (st, None)) \/
  (charge_now s <> prev_charge st /\
   poll st s = Ok (next_state st s, Some (report_of st s))).
Proof.
  destruct (Z.eq_dec (charge_now s) (prev_charge st)) as [E|E].
  - left. split; [assumption | now apply poll_same].
  - right. split; [assumption | now apply poll_changed].
Qed.

(** ** The loop over a sequence of iterations *)

Lemma run_cons_same st s ss :
  charge_now s = prev_charge st -> run st (s :: ss) = run st ss.
Proof.
  intros H. cbn [run]. rewrite poll_same by assumption. cbn.
  destruct (run st ss) as [[st2 rs]|e]; reflexivity.
Qed.

Lemma run_cons_changed st s ss :
  charge_now s <> prev_charge st ->
  run st (s :: ss)
  = '(st2, rs) ← run (next_state st s) ss; Ok (st2, report_of st s :: rs).
Proof.
  intros H. cbn [run]. rewrite poll_changed by assumption. reflexivity.
Qed.

Lemma run_total ss : forall st, exists st' rs, run st ss = Ok (st', rs).
Proof.
  induction ss as [|s ss IH]; intros st.
  - exists st, []. reflexivity.
  - destruct (poll_cases st s) as [[E _]|[E _]].
    + rewrite run_cons_same by assumption. apply IH.
    + rewrite run_cons_changed by assumption.
      destruct (IH (next_state st s)) as (st2 & rs & ->).
      eexists _, _. reflexivity.
Qed.

(** Case analysis on the first iteration of a run that is known to
    return [Ok]: either nothing happened, or a change event was recorded
    and the rest of the run starts from [next_state]. *)
Lemma run_cons_inv st s ss st' rs :
  run st (s :: ss) = Ok (st', rs) ->
  (charge_now s = prev_charge st /\ run st ss = Ok (st', rs)) \/
  (charge_now s <> prev_charge st /\
   exists rs', rs = report_of st s :: rs' /\ run (next_state st s) ss = Ok (st', rs')).
Proof.
  intros H. destruct (poll_cases st s) as [[E _]|[E _]].
  - left. rewrite run_cons_same in H by assumption. auto.
  - right. split; [assumption|].
    rewrite run_cons_changed in H by assumption.
    destruct (run (next_state st s) ss) as [[st2 rs2]|e]; [|discriminate].
    cbn in H. injection H as <- <-. eauto.
Qed.

Lemma run_reports ss : forall st st' rs,
  run st ss = Ok (st', rs) ->
  length rs = changes (prev_charge st) (charge_now <$> ss) /\
  sample_num st' = sample_num st + len rs /\
  intervals st' = intervals st ++ (r_dt_ms <$> rs).
Proof.
  induction ss as [|s ss IH]; intros st st' rs H.
  - cbn in H. injection H as <- <-. cbn. unfold len. cbn.
    rewrite app_nil_r. repeat split; lia.
  - apply run_cons_inv in H as [[E H]|[E (rs' & -> & H)]].
    + apply IH in H as (H1 & H2 & H3). cbn [fmap list_fmap changes].
      apply Z.eqb_eq in E as E'. rewrite E', E. auto.
    + apply IH in H as (H1 & H2 & H3). cbn [fmap list_fmap changes].
      apply Z.eqb_neq in E as E'. rewrite E'.
      cbn in H1, H2, H3 |- *. unfold len in *. cbn [length].
      rewrite H2, H3, <- app_assoc. repeat split; try lia; reflexivity.
Qed.

(** ** The sliding window *)

Lemma last_n_length {A} (n : nat) (l : list A) :
  length (last_n n l) = Nat.min n (length l).
Proof. unfold last_n. rewrite length_drop. lia. Qed.

Lemma push_window_last_n (h : list entry) (e : entry) :
  push_window (last_n 30 h) e = last_n 30 (h ++ [e]).
Proof.
  unfold push_window, len, AVG_WINDOW.
  rewrite length_app, last_n_length. cbn [length].
  unfold last_n. rewrite length_app. cbn [length].
  destruct (Z.ltb_spec 30 (Z.of_nat (Nat.min 30 (length h) + 1))) as [Hlt|Hge].
  - assert (Hh : (30 <= length h)%nat) by lia.
    rewrite drop_app_le by (rewrite length_drop; lia). rewrite drop_app_le by lia.
    rewrite drop_drop. f_equal. f_equal. lia.
  - assert (Hh : (length h < 30)%nat) by lia.
    replace (length h - 30)%nat with 0%nat by lia.
    replace (length h + 1 - 30)%nat with 0%nat by lia. reflexivity.
Qed.

Lemma run_window ss : forall st st' rs h,
  window st = last_n 30 h ->
  run st ss = Ok (st', rs) ->
  let evs := events (prev_charge st) (prev_rapl st) (prev_time st) ss in
  window st' = last_n 30 (h ++ evs) /\ length evs = length rs.
Proof.
  induction ss as [|s ss IH]; intros st st' rs h Hw H.
  - cbn in H. injection H as <- <-. cbn. rewrite app_nil_r. auto.
  - apply run_cons_inv in H as [[E H]|[E (rs' & -> & H)]].
    + cbn [events]. apply Z.eqb_eq in E as ->. eapply IH; eassumption.
    + cbn [events]. apply Z.eqb_neq in E as ->.
      eapply (IH _ _ _ (h ++ [_])) in H.
      2:{ cbn [next_state window]. rewrite Hw. apply push_window_last_n. }
      cbn in H |- *. destruct H as [H1 H2]. rewrite H1, H2, <- app_assoc. auto.
Qed.

(** ** Sorting and indexing *)

Lemma insert_sorted_perm (x : Q) (l : list Q) :
  Permutation (insert_sorted x l) (x :: l).
Proof.
  induction l as [|y l IH]; cbn; [reflexivity|].
  destruct (Qle_bool x y); [reflexivity|].
  rewrite IH. apply perm_swap.
Qed.

Lemma sorted_perm (l : list Q) : Permutation (sorted l) l.
Proof.
  induction l as [|x l IH]; cbn; [reflexivity|].
  unfold sorted in IH. rewrite insert_sorted_perm. now constructor.
Qed.

Lemma sorted_length (l : list Q) : length (sorted l) = length l.
Proof. apply Permutation_length, sorted_perm. Qed.

Lemma insert_sorted_StronglySorted (x : Q) (l : list Q) :
  StronglySorted Qle l -> StronglySorted Qle (insert_sorted x l).
Proof.
  induction 1 as [|y l Hs IH Hy]; cbn.
  - repeat constructor.
  - destruct (Qle_bool x y) eqn:E.
    + apply Qle_bool_iff in E. constructor; [now constructor|].
      constructor; [assumption|].
      eapply Forall_impl; [exact Hy|]. intros z Hz. cbn in Hz. lra.
    + assert (Hyx : (y <= x)%Q).
      { destruct (Qlt_le_dec y x) as [H|H]; [lra|].
        apply Qle_bool_iff in H. congruence. }
      constructor; [assumption|].
      rewrite insert_sorted_perm. now constructor.
Qed.

Lemma sorted_StronglySorted (l : list Q) : StronglySorted Qle (sorted l).
Proof.
  induction l as [|x l IH]; cbn; [constructor|].
  now apply insert_sorted_StronglySorted.
Qed.

Lemma StronglySorted_head_le (x y : Q) (l : list Q) :
  StronglySorted Qle l -> l !! 0%nat = Some x -> y ∈ l -> (x <= y)%Q.
Proof.
  intros Hs Hx Hy. destruct Hs as [|z l Hs Hz]; [discriminate|].
  cbn in Hx. injection Hx as ->.
  apply elem_of_cons in Hy as [->|Hy]; [lra|].
  rewrite Forall_forall in Hz. now apply Hz.
Qed.

Lemma StronglySorted_last_ge (x y : Q) (l : list Q) :
  StronglySorted Qle l -> last l = Some x -> y ∈ l -> (y <= x)%Q.
Proof.
  induction 1 as [|z l Hs IH Hz]; intros Hx Hy; [discriminate|].
  destruct l as [|z' l'].
  - cbn in Hx. injection Hx as ->. apply list_elem_of_singleton in Hy as ->. lra.
  - change (last (z :: z' :: l')) with (last (z' :: l')) in Hx.
    apply elem_of_cons in Hy as [->|Hy]; [|now apply IH].
    rewrite Forall_forall in Hz.
    assert (Hin : x ∈ z' :: l') by (apply last_Some_elem_of; assumption).
    now apply Hz.
Qed.

Lemma index_nonneg {A} (l : list A) (i : nat) (x : A) :
  l !! i = Some x -> index l (Z.of_nat i) = Ok x.
Proof.
  intros H. unfold index.
  destruct (Z.ltb_spec (Z.of_nat i) 0); [lia|].
  destruct (Z.ltb_spec (Z.of_nat i) 0); [lia|].
  now rewrite Nat2Z.id, H.
Qed.

Lemma index_last {A} (l : list A) (x : A) :
  last l = Some x -> index l (-1) = Ok x.
Proof.
  intros H. rewrite last_lookup in H.
  assert (Hlen : (0 < length l)%nat).
  { destruct l; [discriminate | cbn; lia]. }
  unfold index, len. cbn [Z.ltb Z.compare].
  destruct (Z.ltb_spec (Z.of_nat (length l) + -1) 0); [lia|].
  replace (Z.to_nat (Z.of_nat (length l) + -1)) with (Nat.pred (length l)) by lia.
  now rewrite H.
Qed.

Lemma index_median {A} (l : list A) (x : A) :
  l !! (length l / 2)%nat = Some x -> index l (len l `div` 2) = Ok x.
Proof.
  intros H. unfold len.
  replace (Z.of_nat (length l) `div` 2) with (Z.of_nat (length l / 2)).
  - now apply index_nonneg.
  - now rewrite Nat2Z.inj_div.
Qed.

(** ** Counting into buckets *)

Section Tally.
Context {K : Type} `{Countable K}.

Lemma occurrences_nonneg (b : K) (bs : list K) : 0 <= occurrences b bs.
Proof. unfold occurrences, len. lia. Qed.

Lemma occurrences_cons (b b' : K) (bs : list K) :
  occurrences b (b' :: bs) = (if decide (b = b') then 1 else 0) + occurrences b bs.
Proof.
  unfold occurrences, len. rewrite filter_cons.
  destruct (decide (b = b')); cbn [length]; lia.
Qed.

Lemma occurrences_pos (b : K) (bs : list K) : 0 < occurrences b bs <-> b ∈ bs.
Proof.
  induction bs as [|b' bs IH].
  - unfold occurrences, len. cbn. split; [lia | intros Hin; inversion Hin].
  - rewrite occurrences_cons, elem_of_cons.
    pose proof (occurrences_nonneg b bs).
    destruct (decide (b = b')); split; intros; try lia; auto.
    + tauto.
    + apply IH. tauto.
Qed.

Lemma tally_lookup (m : gmap K Z) (b b' : K) :
  default 0 (tally m b !! b') = default 0 (m !! b') + (if decide (b' = b) then 1 else 0).
Proof.
  unfold tally. destruct (decide (b' = b)) as [->|Hne].
  - rewrite lookup_insert_eq. reflexivity.
  - rewrite lookup_insert_ne by congruence. lia.
Qed.

Lemma foldl_tally_lookup (bs : list K) : forall (m : gmap K Z) (b : K),
  default 0 (foldl tally m bs !! b) = default 0 (m !! b) + occurrences b bs.
Proof.
  induction bs as [|b' bs IH]; intros m b; cbn [foldl].
  - unfold occurrences, len. cbn. lia.
  - rewrite IH, tally_lookup, occurrences_cons. lia.
Qed.

Lemma foldl_tally_is_Some (bs : list K) : forall (m : gmap K Z) (b : K),
  is_Some (foldl tally m bs !! b) <-> is_Some (m !! b) \/ b ∈ bs.
Proof.
  induction bs as [|b' bs IH]; intros m b; cbn [foldl].
  - split; [auto | intros [?|Hin]; [assumption | inversion Hin]].
  - rewrite IH, elem_of_cons. unfold tally.
    destruct (decide (b = b')) as [->|Hne].
    + rewrite lookup_insert_eq. split; [auto | eauto].
    + rewrite lookup_insert_ne by congruence. tauto.
Qed.

(** The dictionary built by counting the keys [bs] one by one. *)
Lemma tally_all_lookup (bs : list K) (b : K) :
  foldl tally (∅ : gmap K Z) bs !! b
  = if decide (b ∈ bs) then Some (occurrences b bs) else None.
Proof.
  pose proof (foldl_tally_lookup bs ∅ b) as Hv.
  pose proof (foldl_tally_is_Some bs ∅ b) as Hs.
  rewrite lookup_empty in Hv, Hs. cbn in Hv.
  destruct (decide (b ∈ bs)) as [Hin|Hout].
  - destruct (proj2 Hs (or_intror Hin)) as [v Hv']. rewrite Hv' in Hv |- *.
    cbn in Hv. now subst.
  - destruct (foldl tally ∅ bs !! b) eqn:E; [|reflexivity].
    destruct (proj1 Hs (mk_is_Some _ _ eq_refl)) as [[? [=]]|?]. contradiction.
Qed.

Lemma tally_all_get (bs : list K) (b : K) :
  default 0 (foldl tally (∅ : gmap K Z) bs !! b) = occurrences b bs.
Proof. rewrite foldl_tally_lookup, lookup_empty. cbn. lia. Qed.

Lemma tally_all_nonempty (b : K) (bs : list K) : foldl tally (∅ : gmap K Z) (b :: bs) <> ∅.
Proof.
  intros Hempty.
  pose proof (tally_all_lookup (b :: bs) b) as Hb.
  rewrite Hempty, lookup_empty in Hb.
  destruct (decide (b ∈ b :: bs)) as [|Hout]; [discriminate|].
  apply Hout. left.
Qed.
End Tally.

Lemma foldl_max_spec (xs : list Z) : forall x,
  foldl Z.max x xs ∈ x :: xs /\ forall y, y ∈ x :: xs -> y <= foldl Z.max x xs.
Proof.
  induction xs as [|z xs IH]; intros x; cbn [foldl].
  - split; [left|]. intros y Hy. apply list_elem_of_singleton in Hy. lia.
  - destruct (IH (Z.max x z)) as [Hin Hle]. split.
    + apply elem_of_cons in Hin as [Hin|Hin].
      * rewrite Hin. destruct (Z.max_spec x z) as [[_ ->]|[_ ->]].
        -- right. left.
        -- left.
      * right. now right.
    + intros y Hy.
      assert (Hm : Z.max x z <= foldl Z.max (Z.max x z) xs) by (apply Hle; left).
      apply elem_of_cons in Hy as [->|Hy]; [lia|].
      apply elem_of_cons in Hy as [->|Hy]; [lia|].
      apply Hle. now right.
Qed.

(** [max(m.values())] of the dictionary counting [bs]: the largest number
    of occurrences of any key. *)
Lemma max_values_tally {K : Type} `{Countable K} (b0 : K) (bs : list K) :
  exists M,
    max_values (foldl tally (∅ : gmap K Z) (b0 :: bs)) = Ok M /\
    (exists b, b ∈ b0 :: bs /\ occurrences b (b0 :: bs) = M) /\
    (forall b, occurrences b (b0 :: bs) <= M) /\
    0 < M.
Proof.
  set (m := foldl tally (∅ : gmap K Z) (b0 :: bs)).
  assert (Hval : forall v, v ∈ (map_to_list m).*2 <->
                           exists b, b ∈ b0 :: bs /\ occurrences b (b0 :: bs) = v).
  { intros v. rewrite list_elem_of_fmap. split.
    - intros ([b v'] & -> & Hin). apply elem_of_map_to_list in Hin.
      unfold m in Hin. rewrite tally_all_lookup in Hin.
      destruct (decide (b ∈ b0 :: bs)); [|discriminate].
      injection Hin as <-. eauto.
    - intros (b & Hin & <-). exists (b, occurrences b (b0 :: bs)). split; [reflexivity|].
      apply elem_of_map_to_list. unfold m. rewrite tally_all_lookup.
      now destruct (decide (b ∈ b0 :: bs)). }
  unfold max_values. fold m.
  destruct ((map_to_list m).*2) as [|x xs] eqn:El.
  - exfalso. assert (Hin : occurrences b0 (b0 :: bs) ∈ @nil Z).
    { apply Hval. exists b0. split; [left | reflexivity]. }
    inversion Hin.
  - destruct (foldl_max_spec xs x) as [Hin Hle].
    exists (foldl Z.max x xs). split; [reflexivity|].
    assert (Hex : exists b, b ∈ b0 :: bs /\ occurrences b (b0 :: bs) = foldl Z.max x xs)
      by now apply Hval.
    split; [assumption|].
    assert (Hpos : 0 < foldl Z.max x xs).
    { destruct Hex as (b & Hb & <-). now apply occurrences_pos. }
    split; [|assumption].
    intros b. destruct (decide (b ∈ b0 :: bs)) as [Hb|Hb].
    + apply Hle, Hval. eauto.
    + pose proof (occurrences_pos b (b0 :: bs)) as Hp.
      pose proof (occurrences_nonneg b (b0 :: bs)).
      destruct (Z.eq_dec (occurrences b (b0 :: bs)) 0) as [->|Hne]; [lia|].
      exfalso. apply Hb, Hp. lia.
Qed.

(** ** The interval histogram *)

Lemma interval_bucket_eq (iv : Q) : interval_bucket iv = Ok (bucket_of iv).
Proof.
  unfold interval_bucket. rewrite floordiv_Ok by (intros Hz; vm_compute in Hz; discriminate).
  cbn. now rewrite int_inject_Z.
Qed.

Lemma count_interval_eq (m : gmap Z Z) (iv : Q) :
  count_interval m iv = Ok (tally m (bucket_of iv)).
Proof. unfold count_interval. now rewrite interval_bucket_eq. Qed.

Lemma for_each_count_interval (ivs : list Q) : forall m,
  for_each count_interval m ivs = Ok (foldl tally m (bucket_of <$> ivs)).
Proof.
  induction ivs as [|iv ivs IH]; intros m; [reflexivity|].
  cbn [for_each fmap list_fmap foldl].
  rewrite count_interval_eq. cbn [mbind result_bind]. apply IH.
Qed.

Lemma bar_of_eq (count max_count : Z) :
  (count <> 0 -> max_count <> 0) ->
  bar_of count max_count = Ok (bar_str count max_count).
Proof.
  intros Hm. unfold bar_of, bar_str. destruct (Z.eqb_spec count 0); [reflexivity|].
  rewrite truediv_Ok; [reflexivity|]. apply inject_Z_nonzero. tauto.
Qed.

Lemma mapM_Ok {A B} (f : A -> result B) (g : A -> B) (l : list A) :
  (forall x, x ∈ l -> f x = Ok (g x)) -> mapM f l = Ok (g <$> l).
Proof.
  induction l as [|x l IH]; intros Hf; cbn; [reflexivity|].
  rewrite Hf by left. cbn. rewrite IH; [reflexivity|].
  intros y Hy. apply Hf. now right.
Qed.

(** The rows printed by [range(lo, hi + 1, HIST_BUCKET_MS)] when the
    smallest interval is [mn] and the largest is [mx]. *)
Lemma range_buckets (mn mx : Q) :
  (mn <= mx)%Q ->
  range (bucket_of mn) (bucket_of mx + HIST_BUCKET_MS + 1) HIST_BUCKET_MS
  = (fun k => bucket_of mn + k * HIST_BUCKET_MS)
      <$> seqZ 0 ((bucket_of mx - bucket_of mn) `div` HIST_BUCKET_MS + 2).
Proof.
  intros Hle. unfold range. f_equal. f_equal.
  unfold bucket_of, HIST_BUCKET_MS.
  set (a := Qfloor (mn / inject_Z 100)). set (b := Qfloor (mx / inject_Z 100)).
  replace (b * 100 + 100 + 1 - a * 100 + 100 - 1) with ((b - a + 2) * 100) by lia.
  replace (b * 100 - a * 100) with ((b - a) * 100) by lia.
  rewrite !Z.div_mul by lia. lia.
Qed.

(** What [show_histogram] prints for the update intervals. *)
Lemma interval_section_eq (ivs : list Q) :
  ivs <> [] ->
  exists mn med mx max_count,
    sorted ivs !! 0%nat = Some mn /\
    sorted ivs !! (length ivs / 2)%nat = Some med /\
    last (sorted ivs) = Some mx /\
    (exists b, count_in ivs b = max_count) /\
    (forall b, count_in ivs b <= max_count) /\
    0 < max_count /\
    interval_section ivs
    = Ok (interval_header (len ivs) mn med mx (sumQ (sorted ivs) / inject_Z (len ivs))
          ++ (row_of ivs max_count
                <$> range (bucket_of mn) (bucket_of mx + HIST_BUCKET_MS + 1) HIST_BUCKET_MS)
          ++ [Text ""]).
Proof.
  intros Hne.
  assert (Hlen : (0 < length (sorted ivs))%nat).
  { rewrite sorted_length. destruct ivs; [congruence | cbn; lia]. }
  destruct (lookup_lt_is_Some_2 (sorted ivs) 0%nat Hlen) as [mn Hmn].
  destruct (lookup_lt_is_Some_2 (sorted ivs) (length ivs / 2)%nat) as [med Hmed].
  { rewrite sorted_length in *. apply Nat.div_lt; lia. }
  destruct (last (sorted ivs)) as [mx|] eqn:Hmx.
  2:{ apply last_None in Hmx. rewrite Hmx in Hlen. cbn in Hlen. lia. }
  destruct ivs as [|iv0 ivs']; [congruence|]. set (ivs := iv0 :: ivs') in *.
  destruct (max_values_tally (bucket_of iv0) (bucket_of <$> ivs'))
    as (M & HM & Hex & Hall & Hpos).
  exists mn, med, mx, M. repeat split; try assumption.
  { destruct Hex as (b & _ & Hb). now exists b. }
  unfold interval_section.
  change 0 with (Z.of_nat 0) at 1. rewrite (index_nonneg _ _ _ Hmn). cbn [mbind result_bind].
  rewrite (index_median _ med) by (now rewrite sorted_length).
  cbn [mbind result_bind]. rewrite (index_last _ _ Hmx). cbn [mbind result_bind].
  rewrite truediv_Ok.
  2:{ apply inject_Z_nonzero. unfold len. lia. }
  cbn [mbind result_bind]. rewrite !interval_bucket_eq. cbn [mbind result_bind].
  rewrite for_each_count_interval. cbn [mbind result_bind].
  destruct (decide (foldl tally ∅ (bucket_of <$> ivs) = ∅)) as [He|_].
  { exfalso. now apply (tally_all_nonempty (bucket_of iv0) (bucket_of <$> ivs')). }
  change (bucket_of <$> ivs) with (bucket_of iv0 :: (bucket_of <$> ivs')).
  rewrite HM. cbn [mbind result_bind].
  rewrite (mapM_Ok _ (row_of ivs M)).
  - cbn [mbind result_bind]. unfold len. rewrite sorted_length. reflexivity.
  - intros b _. unfold interval_row, row_of.
    change (bucket_of iv0 :: (bucket_of <$> ivs')) with (bucket_of <$> ivs).
    rewrite tally_all_get. fold (count_in ivs b).
    rewrite bar_of_eq; [reflexivity|]. intros _. lia.
Qed.

Lemma sorted_min_max (ivs : list Q) (mn mx : Q) :
  sorted ivs !! 0%nat = Some mn -> last (sorted ivs) = Some mx ->
  mn ∈ ivs /\ mx ∈ ivs /\ forall x, x ∈ ivs -> (mn <= x <= mx)%Q.
Proof.
  intros Hmn Hmx.
  assert (Hin : forall x, x ∈ sorted ivs <-> x ∈ ivs).
  { intros x. now rewrite (sorted_perm ivs). }
  split; [apply Hin; eapply list_elem_of_lookup_2; eassumption|].
  split; [apply Hin; now apply last_Some_elem_of|].
  intros x Hx. apply Hin in Hx. split.
  - eapply StronglySorted_head_le; eauto using sorted_StronglySorted.
  - eapply StronglySorted_last_ge; eauto using sorted_StronglySorted.
Qed.

Lemma string_length_app (a b : string) :
  String.length (a ++ b) = (String.length a + String.length b)%nat.
Proof.
  induction a as [|c a IH]; [reflexivity|].
  change (String c a ++ b)%string with (String c (a ++ b)).
  cbn [String.length]. now rewrite IH.
Qed.

Lemma hashes_length (n : Z) : String.length (hashes n) = Z.to_nat n.
Proof.
  unfold hashes. induction (Z.to_nat n) as [|k IH]; [reflexivity|].
  destruct k as [|k]; [reflexivity|].
  change (String.concat "" (replicate (S (S k)) "#"%string))
    with ("#" ++ "" ++ String.concat "" (replicate (S k) "#"))%string.
  rewrite !string_length_app, IH. reflexivity.
Qed.

Lemma round_Qeq (x y : Q) : (x == y)%Q -> round x = round y.
Proof.
  intros E. unfold round. rewrite (Qfloor_comp _ _ E).
  assert (Ec : ((x - inject_Z (Qfloor y)) ?= (1 # 2))%Q
               = ((y - inject_Z (Qfloor y)) ?= (1 # 2))%Q) by now rewrite E.
  now rewrite Ec.
Qed.

(** The bar is [round(count / max_count * 40)] characters long, also for
    an empty bucket. *)
Lemma bar_str_length (count max_count : Z) :
  0 <= count ->
  String.length (bar_str count max_count)
  = Z.to_nat (round (inject_Z count / inject_Z max_count * inject_Z bar_w)).
Proof.
  intros Hc. unfold bar_str. destruct (Z.eqb_spec count 0) as [->|Hne].
  - rewrite (round_Qeq _ 0); [reflexivity|].
    unfold Qeq. reflexivity.
  - apply hashes_length.
Qed.

Lemma interval_rows_app (o1 o2 : list line) :
  interval_rows (o1 ++ o2) = interval_rows o1 ++ interval_rows o2.
Proof. unfold interval_rows. apply omap_app. Qed.

Lemma interval_rows_header (n : Z) (mn med mx mean : Q) :
  interval_rows (interval_header n mn med mx mean) = [].
Proof. reflexivity. Qed.

Lemma interval_rows_row_of (ivs : list Q) (M : Z) (bs : list Z) :
  interval_rows (row_of ivs M <$> bs)
  = (fun b => (b, bar_str (count_in ivs b) M, count_in ivs b)) <$> bs.
Proof.
  induction bs as [|b bs IH]; [reflexivity|].
  cbn. unfold interval_rows in IH. now rewrite IH.
Qed.

(** The rows of the interval histogram, bucket by bucket. *)
Lemma interval_histogram_rows (ivs : list Q) :
  ivs <> [] ->
  exists out mn mx max_count,
    interval_section ivs = Ok out /\
    (mn ∈ ivs /\ mx ∈ ivs /\ forall x, x ∈ ivs -> (mn <= x <= mx)%Q) /\
    ((exists b, count_in ivs b = max_count) /\ forall b, count_in ivs b <= max_count) /\
    interval_rows out
    = (fun b => (b, bar_str (count_in ivs b) max_count, count_in ivs b))
        <$> (buckets_between mn mx ++ [bucket_of mx + HIST_BUCKET_MS]).
Proof.
  intros Hne.
  destruct (interval_section_eq ivs Hne)
    as (mn & med & mx & M & Hmn & Hmed & Hmx & Hex & Hall & Hpos & Hsec).
  destruct (sorted_min_max ivs mn mx Hmn Hmx) as (Hmn_in & Hmx_in & Hbounds).
  eexists _, mn, mx, M. split; [exact Hsec|].
  split; [auto|]. split; [auto|].
  assert (Hle : (mn <= mx)%Q) by (apply Hbounds; assumption).
  assert (Hb : bucket_of mn <= bucket_of mx).
  { unfold bucket_of, HIST_BUCKET_MS.
    assert (Qfloor (mn / inject_Z 100) <= Qfloor (mx / inject_Z 100)); [|lia].
    apply Qfloor_resp_le. unfold Qdiv. apply Qmult_le_compat_r; [assumption|].
    now vm_compute. }
  assert (Hrows : interval_rows
            (interval_header (len ivs) mn med mx (sumQ (sorted ivs) / inject_Z (len ivs))
             ++ (row_of ivs M
                   <$> range (bucket_of mn) (bucket_of mx + HIST_BUCKET_MS + 1) HIST_BUCKET_MS)
             ++ [Text ""%string])
          = (fun b => (b, bar_str (count_in ivs b) M, count_in ivs b))
              <$> (buckets_between mn mx ++ [bucket_of mx + HIST_BUCKET_MS])).
  { rewrite !interval_rows_app, interval_rows_row_of, interval_rows_header.
    change (interval_rows [Text ""%string]) with (@nil (Z * string * Z)).
    rewrite app_nil_r, app_nil_l. f_equal.
    rewrite range_buckets by assumption. unfold buckets_between.
    set (n := (bucket_of mx - bucket_of mn) `div` HIST_BUCKET_MS).
    assert (Hn : 0 <= n) by (apply Z.div_pos; unfold HIST_BUCKET_MS; lia).
    replace (n + 2) with ((n + 1) + 1) by lia.
    rewrite (seqZ_app 0 (n + 1) 1) by lia. rewrite fmap_app.
    apply (f_equal2 app); [reflexivity|].
    rewrite seqZ_cons by lia. rewrite seqZ_nil by lia. cbn [fmap list_fmap].
    f_equal. subst n. unfold bucket_of, HIST_BUCKET_MS in *.
    set (a := Qfloor (mn / inject_Z 100)) in *. set (b := Qfloor (mx / inject_Z 100)) in *.
    replace (b * 100 - a * 100) with ((b - a) * 100) by lia.
    rewrite Z.div_mul by lia. lia. }
  exact Hrows.
Qed.

(** ** The power-delta history *)

Lemma run_sample_nums ss : forall st st' rs,
  run st ss = Ok (st', rs) ->
  forall (i : nat) r, rs !! i = Some r -> r_sample_num r = sample_num st + Z.of_nat i + 1.
Proof.
  induction ss as [|s ss IH]; intros st st' rs H i r Hi.
  - cbn in H. injection H as <- <-. discriminate.
  - apply run_cons_inv in H as [[E H]|[E (rs' & -> & H)]].
    + eapply IH; eassumption.
    + destruct i as [|i].
      * cbn in Hi. injection Hi as <-. cbn. lia.
      * cbn in Hi. rewrite (IH _ _ _ H i r Hi). cbn [next_state sample_num]. lia.
Qed.

Lemma run_power_deltas ss : forall st st' rs,
  run st ss = Ok (st', rs) ->
  power_deltas st'
  = power_deltas st ++ (r_power_delta <$> filter (fun r => AVG_WINDOW <= r_sample_num r) rs) /\
  Forall (fun r => r_power_delta r = (r_avg_w r - r_rapl_avg_w r)%Q) rs /\
  len (power_deltas st') - len (power_deltas st)
  = Z.max 0 (sample_num st' - AVG_WINDOW + 1) - Z.max 0 (sample_num st - AVG_WINDOW + 1).
Proof.
  induction ss as [|s ss IH]; intros st st' rs H.
  - cbn in H. injection H as <- <-. cbn. rewrite app_nil_r.
    split; [reflexivity|]. split; [constructor | lia].
  - apply run_cons_inv in H as [[E H]|[E (rs' & -> & H)]]; [now apply IH|].
    apply IH in H as (Hpd & Hall & Hlen).
    split; [|split; [constructor; [reflexivity | assumption]|]].
    + rewrite Hpd, filter_cons. cbn [next_state power_deltas report_of r_sample_num].
      destruct (decide (AVG_WINDOW <= sample_num st + 1)) as [Hge|Hlt].
      * apply Z.leb_le in Hge as ->. now rewrite <- app_assoc.
      * apply Z.leb_nle in Hlt as ->. reflexivity.
    + revert Hlen. cbn [next_state power_deltas sample_num]. unfold len, AVG_WINDOW.
      destruct (Z.leb_spec 30 (sample_num st + 1)); [rewrite length_app; cbn [length]|]; lia.
Qed.

Lemma interval_section_no_delta (ivs : list Q) (out : list line) :
  ivs <> [] -> interval_section ivs = Ok out ->
  Forall (fun l => is_delta_line l = false) out.
Proof.
  intros Hne Hout.
  destruct (interval_section_eq ivs Hne) as (mn & med & mx & M & _ & _ & _ & _ & _ & _ & Hsec).
  rewrite Hsec in Hout. injection Hout as <-.
  unfold interval_header. cbn [app]. do 4 (constructor; [reflexivity|]).
  apply Forall_app. split; [|repeat constructor].
  apply Forall_fmap, Forall_true. reflexivity.
Qed.

(** ** An end-to-end run *)

Lemma guard_pos_pos (d v : Q) : (0 < d)%Q -> guard_pos d v = v.
Proof.
  intros H. unfold guard_pos. apply Qpos_bool_true in H. now rewrite H.
Qed.

Lemma power_at_1000 (dt : Q) :
  (dt == 1000)%Q ->
  (guard_pos dt (Qabs (inject_Z (5 * 12000000) * c3_6e_6 / dt)) == 216 # 1000)%Q.
Proof.
  intros E. rewrite guard_pos_pos by (rewrite E; reflexivity).
  rewrite E. reflexivity.
Qed.

(** ** The first interval *)

Lemma run_skip_unchanged (pre ss : list sample) : forall st,
  Forall (fun x => charge_now x = prev_charge st) pre ->
  run st (pre ++ ss) = run st ss.
Proof.
  induction pre as [|x pre IH]; intros st Hpre; [reflexivity|].
  apply Forall_cons in Hpre as [Hx Hpre]. cbn [app].
  rewrite run_cons_same by assumption. now apply IH.
Qed.

Lemma bucket_of_mono (x y : Q) : (x <= y)%Q -> bucket_of x <= bucket_of y.
Proof.
  intros Hle. unfold bucket_of, HIST_BUCKET_MS.
  assert (Qfloor (x / inject_Z 100) <= Qfloor (y / inject_Z 100)); [|lia].
  apply Qfloor_resp_le. unfold Qdiv. apply Qmult_le_compat_r; [assumption|].
  now vm_compute.
Qed.

Lemma bucket_in_between (mn iv mx : Q) :
  (mn <= iv <= mx)%Q -> bucket_of iv ∈ buckets_between mn mx.
Proof.
  intros [H1 H2]. apply bucket_of_mono in H1, H2.
  unfold buckets_between. apply list_elem_of_fmap.
  exists ((bucket_of iv - bucket_of mn) `div` HIST_BUCKET_MS).
  revert H1 H2. unfold bucket_of, HIST_BUCKET_MS.
  set (a := Qfloor (mn / inject_Z 100)). set (b := Qfloor (iv / inject_Z 100)).
  set (c := Qfloor (mx / inject_Z 100)). intros H1 H2.
  replace (b * 100 - a * 100) with ((b - a) * 100) by lia.
  replace (c * 100 - a * 100) with ((c - a) * 100) by lia.
  rewrite !Z.div_mul by lia. split; [lia|].
  apply elem_of_seqZ. lia.
Qed.

(** ** Buckets of negative power deltas *)

Lemma interval_bucket_floor (iv : Q) :
  exists b, interval_bucket iv = Ok b /\
            (inject_Z b == floor_bucket (inject_Z HIST_BUCKET_MS) iv)%Q.
Proof.
  exists (bucket_of iv). split; [apply interval_bucket_eq|].
  unfold bucket_of, floor_bucket. now rewrite inject_Z_mult.
Qed.

Lemma DELTA_BUCKET_W_nonzero : ~ (DELTA_BUCKET_W == 0)%Q.
Proof. intros H. vm_compute in H. discriminate. Qed.

Lemma delta_bucket_nonneg (d : Q) :
  (0 <= d)%Q -> delta_bucket d = Ok (floor_bucket DELTA_BUCKET_W d).
Proof.
  intros Hd. unfold delta_bucket. apply Qneg_bool_false in Hd. rewrite Hd.
  rewrite floordiv_Ok by apply DELTA_BUCKET_W_nonzero. cbn [mbind result_bind].
  now rewrite int_inject_Z.
Qed.

Lemma delta_bucket_neg (d : Q) :
  (d < 0)%Q ->
  delta_bucket d
  = Ok (- (inject_Z (Qfloor (- d / DELTA_BUCKET_W)) + 1) * DELTA_BUCKET_W)%Q.
Proof.
  intros Hd. unfold delta_bucket. apply Qneg_bool_true in Hd. rewrite Hd.
  now rewrite floordiv_Ok by apply DELTA_BUCKET_W_nonzero.
Qed.

(** The floor of [- x]: the negated floor of [x] when [x] is an integer,
    one less otherwise. *)
Lemma Qfloor_opp (x : Q) :
  Qfloor (- x) = if Qeq_bool (inject_Z (Qfloor x)) x then - Qfloor x else - Qfloor x - 1.
Proof.
  pose proof (Qfloor_le x) as Hf. pose proof (Qlt_floor x) as Hc.
  rewrite inject_Z_plus in Hc. change (inject_Z 1) with 1%Q in Hc.
  destruct (Qeq_bool (inject_Z (Qfloor x)) x) eqn:E.
  - apply Qeq_bool_iff in E. apply Qfloor_unique.
    + rewrite inject_Z_opp. lra.
    + rewrite inject_Z_plus, inject_Z_opp. change (inject_Z 1) with 1%Q. lra.
  - apply Qeq_bool_neq in E. apply Qfloor_unique.
    + unfold Z.sub. rewrite inject_Z_plus, inject_Z_opp.
      change (inject_Z (- (1))) with (- (1))%Q. lra.
    + replace (- Qfloor x - 1 + 1) with (- Qfloor x) by lia.
      rewrite inject_Z_opp.
      assert (Hlt : (inject_Z (Qfloor x) < x)%Q).
      { apply Qle_lteq in Hf as [Hf|Hf]; [assumption | contradiction]. }
      lra.
Qed.

(** What the code computes for every power delta, against the floor: the
    two agree except on the negative exact multiples of the bucket width,
    which land one bucket lower. *)
Lemma delta_bucket_vs_floor (d : Q) :
  exists b, delta_bucket d = Ok b /\
    if Qneg_bool d && Qeq_bool (inject_Z (Qfloor (d / DELTA_BUCKET_W))) (d / DELTA_BUCKET_W)
    then (b == floor_bucket DELTA_BUCKET_W d - DELTA_BUCKET_W)%Q
    else (b == floor_bucket DELTA_BUCKET_W d)%Q.
Proof.
  destruct (Qneg_bool d) eqn:Hn.
  - apply Qneg_bool_true in Hn. rewrite delta_bucket_neg by assumption.
    eexists. split; [reflexivity|]. cbn [andb]. unfold floor_bucket.
    assert (Ex : (d / DELTA_BUCKET_W == - (- d / DELTA_BUCKET_W))%Q)
      by (unfold DELTA_BUCKET_W; field).
    set (x := (- d / DELTA_BUCKET_W)%Q) in *.
    assert (HF : Qfloor (d / DELTA_BUCKET_W)
                 = if Qeq_bool (inject_Z (Qfloor x)) x then - Qfloor x else - Qfloor x - 1).
    { rewrite (Qfloor_comp _ _ Ex). apply Qfloor_opp. }
    pose proof (Qlt_floor x) as Hc.
    rewrite inject_Z_plus in Hc. change (inject_Z 1) with 1%Q in Hc.
    destruct (Qeq_bool (inject_Z (Qfloor x)) x) eqn:E1; rewrite HF.
    + apply Qeq_bool_iff in E1.
      assert (Ec : Qeq_bool (inject_Z (- Qfloor x)) (d / DELTA_BUCKET_W) = true).
      { apply Qeq_bool_iff. rewrite inject_Z_opp, E1. symmetry. exact Ex. }
      rewrite Ec, inject_Z_opp. ring.
    + apply Qeq_bool_neq in E1.
      assert (Ez : (inject_Z (- Qfloor x - 1) == - inject_Z (Qfloor x) - 1)%Q).
      { unfold Z.sub. rewrite inject_Z_plus, inject_Z_opp. reflexivity. }
      assert (Ec : Qeq_bool (inject_Z (- Qfloor x - 1)) (d / DELTA_BUCKET_W) = false).
      { destruct (Qeq_bool (inject_Z (- Qfloor x - 1)) (d / DELTA_BUCKET_W)) eqn:E2;
          [|reflexivity].
        apply Qeq_bool_iff in E2. rewrite Ez, Ex in E2. lra. }
      rewrite Ec, Ez. ring.
  - apply Qneg_bool_false in Hn. rewrite delta_bucket_nonneg by assumption.
    eexists. split; reflexivity.
Qed.

(** ** The power-delta histogram never raises *)

Lemma delta_bucket_eq (d : Q) : delta_bucket d = Ok (dbucket_of d).
Proof.
  unfold dbucket_of. destruct (Qneg_bool d) eqn:Hn.
  - apply delta_bucket_neg. now apply Qneg_bool_true.
  - apply delta_bucket_nonneg. now apply Qneg_bool_false.
Qed.

Lemma count_delta_eq (m : gmap Qc Z) (d : Q) :
  count_delta m d = Ok (tally m (Q2Qc (dbucket_of d))).
Proof. unfold count_delta. now rewrite delta_bucket_eq. Qed.

Lemma for_each_count_delta (pds : list Q) : forall m,
  for_each count_delta m pds = Ok (foldl tally m ((fun d => Q2Qc (dbucket_of d)) <$> pds)).
Proof.
  induction pds as [|d pds IH]; intros m; [reflexivity|].
  cbn [for_each fmap list_fmap foldl].
  rewrite count_delta_eq. cbn [mbind result_bind]. apply IH.
Qed.

Lemma delta_row_eq (dbuckets : gmap Qc Z) (dmax : Z) (b : Q) :
  dmax <> 0 ->
  delta_row dbuckets dmax b
  = Ok (DeltaRow b (bar_str (default 0 (dbuckets !! Q2Qc b)) dmax)
          (default 0 (dbuckets !! Q2Qc b))).
Proof.
  intros Hd. unfold delta_row. now rewrite bar_of_eq by auto.
Qed.

(** The [while] loop returns, and prints rows only. *)
Lemma delta_rows_total (dbuckets : gmap Qc Z) (dmax : Z) (hi b : Q) :
  dmax <> 0 ->
  exists rows, delta_rows dbuckets dmax hi b = Ok rows /\
               Forall (fun l => is_delta_line l = true) rows.
Proof.
  intros Hd. funelim (delta_rows dbuckets dmax hi b).
  - rewrite delta_row_eq by assumption. cbn [mbind result_bind].
    destruct (H (Text "") Hd) as (rows & -> & Hall). cbn [mbind result_bind].
    eexists. split; [reflexivity|]. constructor; [reflexivity | assumption].
  - exists []. split; [reflexivity | constructor].
Qed.

(** What [show_histogram] prints for a non-empty power-delta history. *)
Lemma delta_section_eq (pds : list Q) :
  pds <> [] ->
  exists mn med mx rows,
    sorted pds !! 0%nat = Some mn /\
    sorted pds !! (length pds / 2)%nat = Some med /\
    last (sorted pds) = Some mx /\
    Forall (fun l => is_delta_line l = true) rows /\
    delta_section pds
    = Ok (delta_header (len pds) mn med mx (sumQ (sorted pds) / inject_Z (len pds))
          ++ rows ++ [Text ""]).
Proof.
  intros Hne.
  assert (Hlen : (0 < length (sorted pds))%nat).
  { rewrite sorted_length. destruct pds; [congruence | cbn; lia]. }
  destruct (lookup_lt_is_Some_2 (sorted pds) 0%nat Hlen) as [mn Hmn].
  destruct (lookup_lt_is_Some_2 (sorted pds) (length pds / 2)%nat) as [med Hmed].
  { rewrite sorted_length in *. apply Nat.div_lt; lia. }
  destruct (last (sorted pds)) as [mx|] eqn:Hmx.
  2:{ apply last_None in Hmx. rewrite Hmx in Hlen. cbn in Hlen. lia. }
  destruct pds as [|d0 pds']; [congruence|]. set (pds := d0 :: pds') in *.
  destruct (max_values_tally (Q2Qc (dbucket_of d0)) ((fun d => Q2Qc (dbucket_of d)) <$> pds'))
    as (M & HM & _ & _ & Hpos).
  unfold delta_section.
  change 0 with (Z.of_nat 0) at 1. rewrite (index_nonneg _ _ _ Hmn). cbn [mbind result_bind].
  rewrite (index_median _ med) by (now rewrite sorted_length).
  cbn [mbind result_bind]. rewrite (index_last _ _ Hmx). cbn [mbind result_bind].
  rewrite truediv_Ok by (apply inject_Z_nonzero; unfold len; lia).
  cbn [mbind result_bind].
  rewrite !floordiv_Ok by apply DELTA_BUCKET_W_nonzero. cbn [mbind result_bind].
  set (lo := if Qneg_bool mn then _ else _).
  assert (Hlo : exists lo', lo = Ok lo') by (subst lo; destruct (Qneg_bool mn); eauto).
  destruct Hlo as [lo' ->]. cbn [mbind result_bind].
  rewrite for_each_count_delta. cbn [mbind result_bind].
  change ((fun d => Q2Qc (dbucket_of d)) <$> pds)
    with (Q2Qc (dbucket_of d0) :: ((fun d => Q2Qc (dbucket_of d)) <$> pds')).
  rewrite HM. cbn [mbind result_bind].
  match goal with
  | |- context [delta_rows ?db ?dm ?hi ?b] =>
      destruct (delta_rows_total db dm hi b) as (rows & Hrows & Hall); [lia|]
  end.
  rewrite Hrows. cbn [mbind result_bind].
  exists mn, med, mx, rows. repeat split; try assumption.
  unfold len. rewrite sorted_length. reflexivity.
Qed.

(** The handler returns for every state, with exit status 0. *)
Lemma show_histogram_total (st : state) :
  exists out, show_histogram st = Ok (out, 0).
Proof.
  unfold show_histogram. destruct (intervals st) as [|iv ivs] eqn:Eiv; [eauto|].
  destruct (interval_section_eq (iv :: ivs))
    as (? & ? & ? & ? & _ & _ & _ & _ & _ & _ & ->); [discriminate|].
  cbn [mbind result_bind].
  destruct (power_deltas st) as [|d ds] eqn:Epd; [eauto|].
  destruct (delta_section_eq (d :: ds)) as (? & ? & ? & ? & _ & _ & _ & _ & ->);
    [discriminate|].
  cbn [mbind result_bind]. eauto.
Qed.

(** * Properties of the specification *)

(** C1: For every state of the polling loop and every reading, one
    iteration prints a report line and records a change event if and only
    if the reading differs from the previously recorded value, and leaves
    the state untouched without output when it is equal; over a whole
    sequence of readings the number of report lines is the number of
    readings that differ from the one before, and each report line has its
    interval in the history. *)
Theorem C1_report_iff_change :
  (forall st s, exists st' o,
      poll st s = Ok (st', o) /\
      (is_Some o <-> charge_now s <> prev_charge st) /\
      (sample_num st' = sample_num st + 1 <-> charge_now s <> prev_charge st) /\
      (length (intervals st') = S (length (intervals st))
       <-> charge_now s <> prev_charge st) /\
      (charge_now s = prev_charge st -> st' = st /\ o = None)) /\
  (forall st ss, exists st' rs,
      run st ss = Ok (st', rs) /\
      length rs = changes (prev_charge st) (charge_now <$> ss) /\
      sample_num st' = sample_num st + len rs /\
      intervals st' = intervals st ++ (r_dt_ms <$> rs)).
Proof.
  split.
  - intros st s. destruct (poll_cases st s) as [[E ->]|[E ->]].
    + exists st, None. split; [reflexivity|].
      repeat split; try tauto; try (intros; lia).
      intros [x Hx]. discriminate.
    + exists (next_state st s), (Some (report_of st s)). split; [reflexivity|].
      cbn. rewrite length_app. cbn.
      repeat split; try tauto; try (intros; lia); eauto.
  - intros st ss. destruct (run_total ss st) as (st' & rs & H).
    exists st', rs. split; [assumption|]. now apply run_reports.
Qed.

(** C2: The code's bucket for the power delta -0.5 W (bucket width 0.5 W)
    is -1.0, whereas floor(-0.5 / 0.5) * 0.5 = -0.5; the value -0.1 does
    fall into bucket -0.5.  The delta -0.5 W is produced by a run of
    thirty change events, and is then counted in the row starting at
    -1.0 W while the row starting at -0.5 W stays empty. *)
Theorem C2_negative_boundary_bucket :
  (exists b, delta_bucket (- (1 # 2)) = Ok b /\ (b == - (1))%Q /\
             (floor_bucket DELTA_BUCKET_W (- (1 # 2)) == - (1 # 2))%Q /\
             ~ (b == floor_bucket DELTA_BUCKET_W (- (1 # 2)))%Q) /\
  (exists b, delta_bucket (- (1 # 10)) = Ok b /\ (b == - (1 # 2))%Q /\
             (b == floor_bucket DELTA_BUCKET_W (- (1 # 10)))%Q) /\
  (exists st rs pd out,
      run (init 100 0 0) boundary_run = Ok (st, rs) /\
      power_deltas st = [pd] /\ (pd == - (1 # 2))%Q /\
      delta_section (power_deltas st) = Ok out /\
      delta_rows_of out = [((- (1))%Q, 1); ((- (1 # 2))%Q, 0); (0%Q, 0)]).
Proof.
  split; [|split].
  - eexists. split; [vm_compute; reflexivity|].
    split; [reflexivity|]. split; [reflexivity|].
    intros H. vm_compute in H. discriminate.
  - eexists. split; [vm_compute; reflexivity|]. split; reflexivity.
  - eexists _, _, _, _. split; [vm_compute; reflexivity|].
    split; [vm_compute; reflexivity|]. split; [vm_compute; reflexivity|].
    split; vm_compute; reflexivity.
Qed.

(** C3, as stated, fails: for the single interval 50 ms the minimum and
    the maximum are both in bucket 0, yet two rows are printed, for the
    buckets 0 and 100. *)
Lemma C3_rows_counterexample :
  ~ rows_min_to_max [50%Q] 50%Q 50%Q /\
  exists out, interval_section [50%Q] = Ok out /\
              interval_rows out = [(0, hashes 40, 1); (100, ""%string, 0)].
Proof.
  split.
  - intros (out & Hout & Hrows). vm_compute in Hout. injection Hout as <-.
    vm_compute in Hrows. discriminate.
  - eexists. split; vm_compute; reflexivity.
Qed.

(** C3 (amended): For every non-empty interval history, the interval
    histogram has exactly one row per bucket from the bucket containing
    the minimum interval to the bucket one bucket width above the bucket
    containing the maximum interval, inclusive, stepping by the bucket
    width (empty buckets included, the last row always being empty); each
    row shows the number of intervals in its bucket and a bar of
    round(count / max_bucket_count * 40) characters. *)
Theorem C3_interval_rows (ivs : list Q) :
  ivs <> [] ->
  exists out mn mx max_count,
    interval_section ivs = Ok out /\
    (mn ∈ ivs /\ mx ∈ ivs /\ forall x, x ∈ ivs -> (mn <= x <= mx)%Q) /\
    ((exists b, count_in ivs b = max_count) /\ forall b, count_in ivs b <= max_count) /\
    interval_rows out
    = (fun b => (b, bar_str (count_in ivs b) max_count, count_in ivs b))
        <$> (buckets_between mn mx ++ [bucket_of mx + HIST_BUCKET_MS]) /\
    count_in ivs (bucket_of mx + HIST_BUCKET_MS) = 0 /\
    forall b bar count, (b, bar, count) ∈ interval_rows out ->
      count = count_in ivs b /\
      String.length bar
      = Z.to_nat (round (inject_Z count / inject_Z max_count * inject_Z bar_w)).
Proof.
  intros Hne.
  destruct (interval_histogram_rows ivs Hne)
    as (out & mn & mx & M & Hsec & Hminmax & HM & Hrows).
  exists out, mn, mx, M.
  split; [exact Hsec|]. split; [exact Hminmax|]. split; [exact HM|].
  split; [exact Hrows|]. destruct Hminmax as (_ & _ & Hbounds). split.
  - pose proof (occurrences_nonneg (bucket_of mx + HIST_BUCKET_MS) (bucket_of <$> ivs)) as H0.
    pose proof (occurrences_pos (bucket_of mx + HIST_BUCKET_MS) (bucket_of <$> ivs)) as Hp.
    unfold count_in.
    destruct (Z.eq_dec (occurrences (bucket_of mx + HIST_BUCKET_MS) (bucket_of <$> ivs)) 0)
      as [E|E]; [exact E|].
    exfalso.
    assert (Hin : bucket_of mx + HIST_BUCKET_MS ∈ bucket_of <$> ivs) by (apply Hp; lia).
    apply list_elem_of_fmap in Hin as (x & Hx & Hxin).
    assert (Hxb : bucket_of x <= bucket_of mx) by (apply bucket_of_mono; now apply Hbounds).
    unfold HIST_BUCKET_MS in *. lia.
  - intros b bar count Hin. rewrite Hrows in Hin.
    apply list_elem_of_fmap in Hin as (b' & [= -> -> ->] & _).
    split; [reflexivity|]. apply bar_str_length. apply occurrences_nonneg.
Qed.

Lemma C3_interval_rows_witness :
  [50%Q; 250%Q] <> [] /\
  exists out mn mx max_count,
    interval_section [50%Q; 250%Q] = Ok out /\
    (mn ∈ [50%Q; 250%Q] /\ mx ∈ [50%Q; 250%Q] /\
     forall x, x ∈ [50%Q; 250%Q] -> (mn <= x <= mx)%Q) /\
    ((exists b, count_in [50%Q; 250%Q] b = max_count) /\
     forall b, count_in [50%Q; 250%Q] b <= max_count) /\
    interval_rows out
    = (fun b => (b, bar_str (count_in [50%Q; 250%Q] b) max_count, count_in [50%Q; 250%Q] b))
        <$> (buckets_between mn mx ++ [bucket_of mx + HIST_BUCKET_MS]) /\
    count_in [50%Q; 250%Q] (bucket_of mx + HIST_BUCKET_MS) = 0 /\
    forall b bar count, (b, bar, count) ∈ interval_rows out ->
      count = count_in [50%Q; 250%Q] b /\
      String.length bar
      = Z.to_nat (round (inject_Z count / inject_Z max_count * inject_Z bar_w)).
Proof.
  split; [discriminate|]. apply (C3_interval_rows [50%Q; 250%Q]). discriminate.
Defined.

(** The rows printed for the intervals 50 ms and 250 ms: the buckets 0,
    100 and 200, and the empty bucket 300 above the maximum. *)
Example interval_rows_50_250 :
  exists out, interval_section [50%Q; 250%Q] = Ok out /\
    interval_rows out
    = [(0, hashes 40, 1); (100, ""%string, 0); (200, hashes 40, 1); (300, ""%string, 0)].
Proof. eexists. split; vm_compute; reflexivity. Qed.

(** C4: At every point of every run the sliding window is exactly the
    most recent (at most 30) change events' (delta, elapsed_ms, voltage,
    secondary_delta) tuples in arrival order; hence it never holds more
    than [AVG_WINDOW] entries, and holds exactly the last 30 once there
    have been at least 30 change events. *)
Theorem C4_window_bounded_recent (c0 r0 : Z) (t0 : Q) (ss : list sample) :
  exists st rs,
    run (init c0 r0 t0) ss = Ok (st, rs) /\
    let evs := events c0 r0 t0 ss in
    length evs = length rs /\
    window st = last_n 30 evs /\
    len (window st) <= AVG_WINDOW /\
    (AVG_WINDOW <= len rs ->
     len (window st) = AVG_WINDOW /\
     window st = drop (length rs - 30) evs).
Proof.
  destruct (run_total ss (init c0 r0 t0)) as (st & rs & H).
  exists st, rs. split; [assumption|].
  eapply (run_window _ _ _ _ []) in H; [|reflexivity].
  cbn in H. destruct H as [Hw Hl]. cbn zeta.
  split; [assumption|]. split; [assumption|].
  unfold len, AVG_WINDOW. rewrite Hw, length_drop, Hl.
  split; [lia|]. intros Hn. split; [lia|reflexivity].
Qed.

(** After the thirty change events of [boundary_run] the window is full
    and starts with the first event's tuple. *)
Example window_full_after_30 :
  match run (init 100 0 0) boundary_run with
  | Ok (st, rs) =>
      len rs = 30 /\ len (window st) = 30 /\
      head (window st) = Some (5, 1000%Q, 12000000, 500000)
  | Raise _ => False
  end.
Proof. vm_compute. split; [|split]; reflexivity. Qed.

(** C5: Each of the four power computations returns a value for every
    input (no exception, so no division by zero, is reachable), the value
    being exactly zero when the elapsed time, respectively the window's
    total elapsed time, is zero; and one loop iteration as a whole never
    raises. *)
Theorem C5_no_division_by_zero :
  (forall r dt, exists v, inst_rapl_w r dt = Ok v /\ ((dt == 0)%Q -> v = 0%Q)) /\
  (forall d u dt, exists v, inst_power_w d u dt = Ok v /\ ((dt == 0)%Q -> v = 0%Q)) /\
  (forall w, exists v, window_avg_w w = Ok v /\ ((sum_dt w == 0)%Q -> v = 0%Q)) /\
  (forall w, exists v, window_rapl_avg_w w = Ok v /\ ((sum_dt w == 0)%Q -> v = 0%Q)) /\
  (forall st s, exists st' o,
      poll st s = Ok (st', o) /\
      forall r, o = Some r ->
        (((monotonic s - prev_time st) * 1000 == 0)%Q ->
         r_power_w r = 0%Q /\ r_rapl_w r = 0%Q) /\
        ((sum_dt (window st') == 0)%Q ->
         r_avg_w r = 0%Q /\ r_rapl_avg_w r = 0%Q)).
Proof.
  repeat split.
  - intros r dt. rewrite inst_rapl_w_eq. eexists. split; [reflexivity|].
    intros H. apply guard_pos_zero. lra.
  - intros d u dt. rewrite inst_power_w_eq. eexists. split; [reflexivity|].
    intros H. apply guard_pos_zero. lra.
  - intros w. rewrite window_avg_w_eq. eexists. split; [reflexivity|].
    intros H. apply guard_pos_zero. lra.
  - intros w. rewrite window_rapl_avg_w_eq. eexists. split; [reflexivity|].
    intros H. apply guard_pos_zero. lra.
  - intros st s. destruct (poll_cases st s) as [[E ->]|[E ->]].
    + eexists _, _. split; [reflexivity|]. intros r [=].
    + eexists _, _. split; [reflexivity|]. intros r [= <-].
      cbn [r_power_w r_rapl_w r_avg_w r_rapl_avg_w report_of window next_state].
      split; intros H; split; apply guard_pos_zero; lra.
Qed.

(** C6: In every run the report lines are those of the change events of
    the readings, and a value (windowed-average power minus
    windowed-average secondary power, both taken over the window as it
    stands after the event was appended) is appended to the power-delta
    history for exactly those change events whose running count is at
    least [AVG_WINDOW]; so the history has max(0, N - 29) entries after N
    change events, an interrupt after at least one but fewer than 30
    change events prints the interval histogram (title, summary and rows)
    and nothing of the power-delta histogram, and from 30 change events on
    the power-delta histogram follows the interval histogram. *)
Theorem C6_power_delta_after_warmup (c0 r0 : Z) (t0 : Q) (ss : list sample) :
  (forall st s st' r,
      poll st s = Ok (st', Some r) ->
      charge_now s <> prev_charge st /\
      r_sample_num r = sample_num st' /\
      sample_num st' = sample_num st + 1 /\
      window st' = push_window (window st)
                     (r_delta r, r_dt_ms r, r_voltage r, energy_uj s - prev_rapl st) /\
      window_avg_w (window st') = Ok (r_avg_w r) /\
      window_rapl_avg_w (window st') = Ok (r_rapl_avg_w r) /\
      ((AVG_WINDOW <= sample_num st' /\
        power_deltas st' = power_deltas st ++ [(r_avg_w r - r_rapl_avg_w r)%Q]) \/
       (sample_num st' < AVG_WINDOW /\ power_deltas st' = power_deltas st))) /\
  (forall st s st', poll st s = Ok (st', None) -> power_deltas st' = power_deltas st) /\
  exists st rs,
    run (init c0 r0 t0) ss = Ok (st, rs) /\
    length rs = changes c0 (charge_now <$> ss) /\
    intervals st = r_dt_ms <$> rs /\
    sample_num st = len rs /\
    (forall (i : nat) r, rs !! i = Some r -> r_sample_num r = Z.of_nat i + 1) /\
    power_deltas st
    = r_power_delta <$> filter (fun r => AVG_WINDOW <= r_sample_num r) rs /\
    Forall (fun r => r_power_delta r = (r_avg_w r - r_rapl_avg_w r)%Q) rs /\
    len (power_deltas st) = Z.max 0 (len rs - AVG_WINDOW + 1) /\
    (1 <= len rs < AVG_WINDOW ->
     power_deltas st = [] /\
     exists out,
       interval_section (intervals st) = Ok out /\
       show_histogram st = Ok (out, 0) /\
       Forall (fun l => is_delta_line l = false) out /\
       IntervalTitle (len rs) ∈ out /\
       exists mn mx max_count,
         interval_rows out
         = (fun b => (b, bar_str (count_in (intervals st) b) max_count,
                      count_in (intervals st) b))
             <$> (buckets_between mn mx ++ [bucket_of mx + HIST_BUCKET_MS])) /\
    (AVG_WINDOW <= len rs ->
     exists out dout,
       interval_section (intervals st) = Ok out /\
       delta_section (power_deltas st) = Ok dout /\
       show_histogram st = Ok (out ++ dout, 0) /\
       IntervalTitle (len rs) ∈ out /\
       Forall (fun l => is_delta_line l = false) out /\
       DeltaTitle (len rs - AVG_WINDOW + 1) AVG_WINDOW ∈ dout).
Proof.
  split; [|split].
  { intros st s st' r Hp.
    destruct (poll_cases st s) as [[E Hs]|[E Hs]]; rewrite Hs in Hp; [discriminate|].
    injection Hp as <- <-.
    split; [exact E|].
    cbn [next_state report_of r_sample_num sample_num window r_delta r_dt_ms r_voltage
         r_avg_w r_rapl_avg_w power_deltas].
    split; [reflexivity|]. split; [reflexivity|]. split; [reflexivity|].
    split; [apply window_avg_w_eq|]. split; [apply window_rapl_avg_w_eq|].
    destruct (Z.leb_spec AVG_WINDOW (sample_num st + 1)); [left | right]; auto. }
  { intros st s st' Hp.
    destruct (poll_cases st s) as [[E Hs]|[E Hs]]; rewrite Hs in Hp; [|discriminate].
    now injection Hp as <-. }
  destruct (run_total ss (init c0 r0 t0)) as (st & rs & H).
  exists st, rs. split; [assumption|].
  pose proof (run_reports _ _ _ _ H) as (Hch & Hnum & Hiv).
  pose proof (run_sample_nums _ _ _ _ H) as Hnums.
  pose proof (run_power_deltas _ _ _ _ H) as (Hpd & Hall & Hlen).
  cbn [init sample_num intervals power_deltas prev_charge app] in *.
  split; [exact Hch|]. split; [exact Hiv|].
  assert (Hn : sample_num st = len rs) by lia.
  split; [exact Hn|]. split; [intros i r Hi; rewrite (Hnums i r Hi); lia|].
  split; [exact Hpd|]. split; [exact Hall|].
  assert (Hl : len (power_deltas st) = Z.max 0 (len rs - AVG_WINDOW + 1)).
  { revert Hlen. unfold len, AVG_WINDOW in *. cbn [length]. lia. }
  split; [exact Hl|].
  assert (Hsome : 1 <= len rs -> intervals st <> []).
  { intros Hlo. rewrite Hiv.
    destruct rs; [unfold len in Hlo; cbn in Hlo; lia | discriminate]. }
  assert (Hivn : len (intervals st) = len rs).
  { rewrite Hiv. unfold len. now rewrite length_fmap. }
  assert (Htitle : forall out, 1 <= len rs -> interval_section (intervals st) = Ok out ->
                               IntervalTitle (len rs) ∈ out).
  { intros out Hlo Hout.
    destruct (interval_section_eq _ (Hsome Hlo))
      as (mn & med & mx & M & _ & _ & _ & _ & _ & _ & Hsec).
    rewrite Hsec in Hout. injection Hout as <-. rewrite Hivn.
    unfold interval_header. cbn [app]. right. left. }
  split.
  - intros [Hlo Hhi].
    assert (Hpd0 : power_deltas st = []).
    { destruct (power_deltas st); [reflexivity|].
      revert Hl. unfold len, AVG_WINDOW in *. cbn [length]. lia. }
    split; [exact Hpd0|].
    destruct (interval_histogram_rows _ (Hsome Hlo))
      as (out & mn & mx & M & Hsec & _ & _ & Hrows).
    exists out. split; [exact Hsec|]. split; [|split; [|split]].
    + unfold show_histogram. destruct (intervals st) eqn:E; [now destruct (Hsome Hlo)|].
      rewrite Hsec, Hpd0. cbn [mbind result_bind]. now rewrite app_nil_r.
    + eapply interval_section_no_delta; [exact (Hsome Hlo) | exact Hsec].
    + apply Htitle; [exact Hlo | exact Hsec].
    + exists mn, mx, M. exact Hrows.
  - intros Hge.
    assert (Hlo : 1 <= len rs) by (unfold AVG_WINDOW in Hge; lia).
    assert (Hpd1 : power_deltas st <> []).
    { intros E. rewrite E in Hl. revert Hl. unfold len, AVG_WINDOW in *. cbn [length]. lia. }
    destruct (interval_section_eq _ (Hsome Hlo))
      as (mn & med & mx & M & _ & _ & _ & _ & _ & _ & Hsec).
    destruct (delta_section_eq _ Hpd1) as (dmn & dmed & dmx & rows & _ & _ & _ & _ & Hdsec).
    eexists _, _. split; [exact Hsec|]. split; [exact Hdsec|]. split; [|split; [|split]].
    + unfold show_histogram. destruct (intervals st) eqn:E; [now destruct (Hsome Hlo)|].
      rewrite Hsec. cbn [mbind result_bind].
      destruct (power_deltas st) eqn:Ep; [now destruct Hpd1|].
      rewrite Hdsec. reflexivity.
    + apply Htitle; [exact Hlo | exact Hsec].
    + eapply interval_section_no_delta; [exact (Hsome Hlo) | exact Hsec].
    + replace (len rs - AVG_WINDOW + 1) with (len (power_deltas st))
        by (rewrite Hl; unfold AVG_WINDOW in *; lia).
      unfold delta_header. cbn [app]. right. left.
Qed.

(** C7: With the initial reading 100 and the polled readings 100, 105,
    105, 110, voltage 12,000,000 uV and the secondary counter 50,000 uJ
    further at each change, 1000 ms apart, exactly two change events are
    recorded (100 to 105 and 105 to 110), the interval history has length
    2, and the instantaneous power of each event is
    abs(5 * 12000000 * 3.6e-6 / 1000) = 0.216 W. *)
Theorem C7_scenario (r0 : Z) (t0 : Q) :
  exists st r1 r2,
    run (init 100 r0 t0) (scenario r0 t0) = Ok (st, [r1; r2]) /\
    (r_charge r1 = 105 /\ r_delta r1 = 5) /\
    (r_charge r2 = 110 /\ r_delta r2 = 5) /\
    sample_num st = 2 /\
    intervals st = [r_dt_ms r1; r_dt_ms r2] /\
    (r_dt_ms r1 == 1000 /\ r_dt_ms r2 == 1000)%Q /\
    (r_power_w r1 == 216 # 1000 /\ r_power_w r2 == 216 # 1000)%Q /\
    (r_rapl_w r1 == 5 # 100 /\ r_rapl_w r2 == 5 # 100)%Q /\
    (Qabs (inject_Z (5 * 12000000) * c3_6e_6 / 1000) == 216 # 1000)%Q.
Proof.
  unfold scenario.
  rewrite run_cons_same by reflexivity.
  rewrite run_cons_changed by (cbn; lia).
  rewrite run_cons_same by reflexivity.
  rewrite run_cons_changed by (cbn; lia).
  cbn [run mbind result_bind].
  eexists _, _, _. split; [reflexivity|].
  cbn [report_of next_state init r_charge r_delta r_dt_ms r_power_w r_rapl_w
       sample_num intervals charge_now monotonic voltage_now energy_uj
       prev_charge prev_time prev_rapl app].
  assert (E1 : ((t0 + 1 - t0) * 1000 == 1000)%Q) by ring.
  assert (E2 : ((t0 + 2 - (t0 + 1)) * 1000 == 1000)%Q) by ring.
  split; [split; reflexivity|]. split; [split; reflexivity|].
  split; [reflexivity|]. split; [reflexivity|]. split; [split; assumption|].
  split; [split; now apply power_at_1000|].
  split; [|reflexivity].
  replace (r0 + 50000 - r0) with 50000 by lia.
  replace (r0 + 100000 - (r0 + 50000)) with 50000 by lia.
  split.
  - rewrite guard_pos_pos by (rewrite E1; reflexivity). rewrite E1. reflexivity.
  - rewrite guard_pos_pos by (rewrite E2; reflexivity). rewrite E2. reflexivity.
Qed.

(** C8: The median printed for the update intervals is the element at
    index n // 2 of the ascending sort of the history (the upper of the two
    middle elements when n is even): 20 for [10, 20, 30] and 30 for
    [10, 20, 30, 40]; the median of the power deltas is taken at the same
    index of their ascending sort. *)
Theorem C8_median_index :
  (forall ivs, ivs <> [] ->
     exists mn med mx mean rest,
       interval_section ivs
       = Ok (Text (nl ++ nl ++ rule) :: IntervalTitle (len ivs)
               :: IntervalStats mn med mx mean :: rest) /\
       sorted ivs !! (length ivs / 2)%nat = Some med /\
       StronglySorted Qle (sorted ivs) /\
       Permutation (sorted ivs) ivs) /\
  (exists rest,
     interval_section [10%Q; 20%Q; 30%Q]
     = Ok (Text (nl ++ nl ++ rule) :: IntervalTitle 3
             :: IntervalStats 10 20 30 (60 # 3) :: rest)) /\
  (exists rest,
     interval_section [10%Q; 20%Q; 30%Q; 40%Q]
     = Ok (Text (nl ++ nl ++ rule) :: IntervalTitle 4
             :: IntervalStats 10 30 40 (100 # 4) :: rest)) /\
  index (sorted [10%Q; 20%Q; 30%Q]) (3 `div` 2) = Ok 20%Q /\
  index (sorted [10%Q; 20%Q; 30%Q; 40%Q]) (4 `div` 2) = Ok 30%Q /\
  (forall pds, pds <> [] ->
     exists mn med mx mean rest,
       delta_section pds
       = Ok (Text rule :: DeltaTitle (len pds) AVG_WINDOW
               :: DeltaStats mn med mx mean :: rest) /\
       sorted pds !! (length pds / 2)%nat = Some med).
Proof.
  split; [|split; [|split; [|split; [|split]]]].
  2, 3: eexists; vm_compute; reflexivity.
  2, 3: reflexivity.
  - intros ivs Hne.
    destruct (interval_section_eq ivs Hne)
      as (mn & med & mx & M & Hmn & Hmed & Hmx & Hex & Hall & Hpos & Hsec).
    eexists mn, med, mx, _, _. split; [exact Hsec|].
    split; [assumption|]. split; [apply sorted_StronglySorted | apply sorted_perm].
  - intros pds Hne.
    destruct (delta_section_eq pds Hne) as (mn & med & mx & rows & _ & Hmed & _ & _ & Hsec).
    eexists mn, med, mx, _, _. split; [exact Hsec | exact Hmed].
Qed.

(** C9: When the interrupt arrives after a run in which no change event
    was recorded, the handler prints exactly the line "No intervals
    recorded." (preceded by an empty line) and exits with status 0; no
    histogram is printed. *)
Theorem C9_no_intervals (c0 r0 : Z) (t0 : Q) (ss : list sample) (st : state) :
  run (init c0 r0 t0) ss = Ok (st, []) ->
  show_histogram st = Ok ([Text no_intervals_msg], 0) /\
  main c0 r0 t0 ss = Ok ([], ([Text no_intervals_msg], 0)) /\
  no_intervals_msg = String "010" "No intervals recorded.".
Proof.
  intros Hrun.
  assert (Hiv : intervals st = []).
  { apply run_reports in Hrun as (_ & _ & ->). reflexivity. }
  assert (Hshow : show_histogram st = Ok ([Text no_intervals_msg], 0)).
  { unfold show_histogram. now rewrite Hiv. }
  split; [exact Hshow|]. split; [|reflexivity].
  unfold main. rewrite Hrun. cbn [mbind result_bind]. rewrite Hshow. reflexivity.
Qed.

Lemma C9_no_intervals_witness :
  let ss := [ {| charge_now := 100; monotonic := 1 # 1000; voltage_now := 12000000;
                 energy_uj := 7 |};
              {| charge_now := 100; monotonic := 2 # 1000; voltage_now := 12000000;
                 energy_uj := 9 |} ] in
  run (init 100 0 0) ss = Ok (init 100 0 0, []) /\
  show_histogram (init 100 0 0) = Ok ([Text no_intervals_msg], 0) /\
  main 100 0 0 ss = Ok ([], ([Text no_intervals_msg], 0)) /\
  no_intervals_msg = String "010" "No intervals recorded.".
Proof.
  cbv zeta. split; [reflexivity|].
  apply (C9_no_intervals 100 0 0 _ (init 100 0 0)). reflexivity.
Defined.

(** C10: In every run the interval of the first change event is measured
    from the monotonic-clock baseline [t0] read at initialisation; it is
    the first element of the interval history, is counted in the number of
    samples, and every interval of the history, the first one included,
    is counted in the row of its bucket, by one and the same count. *)
Theorem C10_first_interval (c0 r0 : Z) (t0 : Q) (pre : list sample) (s : sample)
    (rest : list sample) :
  Forall (fun x => charge_now x = c0) pre ->
  charge_now s <> c0 ->
  exists st r rs out,
    run (init c0 r0 t0) (pre ++ s :: rest) = Ok (st, r :: rs) /\
    r_dt_ms r = ((monotonic s - t0) * 1000)%Q /\
    r_sample_num r = 1 /\
    intervals st = ((monotonic s - t0) * 1000)%Q :: (r_dt_ms <$> rs) /\
    interval_section (intervals st) = Ok out /\
    IntervalTitle (1 + len rs) ∈ out /\
    forall iv, iv ∈ intervals st ->
      0 < count_in (intervals st) (bucket_of iv) /\
      exists bar,
        (bucket_of iv, bar, count_in (intervals st) (bucket_of iv)) ∈ interval_rows out.
Proof.
  intros Hpre Hs.
  rewrite run_skip_unchanged by assumption.
  rewrite run_cons_changed by assumption.
  destruct (run_total rest (next_state (init c0 r0 t0) s)) as (st & rs & Hrun).
  rewrite Hrun. cbn [mbind result_bind].
  pose proof (run_reports _ _ _ _ Hrun) as (_ & _ & Hiv).
  cbn [next_state init intervals app] in Hiv.
  assert (Hne : intervals st <> []) by (rewrite Hiv; discriminate).
  destruct (interval_histogram_rows _ Hne)
    as (out & mn & mx & M & Hsec & (_ & _ & Hb) & _ & Hrows).
  exists st, (report_of (init c0 r0 t0) s), rs, out.
  split; [reflexivity|]. split; [reflexivity|]. split; [reflexivity|].
  split; [exact Hiv|]. split; [exact Hsec|]. split.
  - destruct (interval_section_eq _ Hne)
      as (? & ? & ? & ? & _ & _ & _ & _ & _ & _ & Hsec').
    rewrite Hsec' in Hsec. injection Hsec as <-.
    replace (1 + len rs) with (len (intervals st)).
    + unfold interval_header. right. left.
    + rewrite Hiv. unfold len. cbn [length]. rewrite length_fmap. lia.
  - intros iv Hin. split.
    + apply occurrences_pos. apply list_elem_of_fmap. eauto.
    + eexists. rewrite Hrows. apply list_elem_of_fmap.
      exists (bucket_of iv). split; [reflexivity|].
      apply elem_of_app. left. apply bucket_in_between. now apply Hb.
Qed.

Lemma C10_first_interval_witness :
  let pre := [ {| charge_now := 100; monotonic := 3 + (1 # 2); voltage_now := 12000000;
                  energy_uj := 25000 |} ]%Q in
  let s := {| charge_now := 105; monotonic := 4; voltage_now := 12000000;
              energy_uj := 50000 |} in
  let rest := [ {| charge_now := 110; monotonic := 5; voltage_now := 12000000;
                   energy_uj := 100000 |} ] in
  Forall (fun x => charge_now x = 100) pre /\
  charge_now s <> 100 /\
  exists st r rs out,
    run (init 100 0 3) (pre ++ s :: rest) = Ok (st, r :: rs) /\
    r_dt_ms r = ((monotonic s - 3) * 1000)%Q /\
    r_sample_num r = 1 /\
    intervals st = ((monotonic s - 3) * 1000)%Q :: (r_dt_ms <$> rs) /\
    interval_section (intervals st) = Ok out /\
    IntervalTitle (1 + len rs) ∈ out /\
    forall iv, iv ∈ intervals st ->
      0 < count_in (intervals st) (bucket_of iv) /\
      exists bar,
        (bucket_of iv, bar, count_in (intervals st) (bucket_of iv)) ∈ interval_rows out.
Proof.
  cbv zeta. split; [repeat constructor|]. split; [cbn; lia|].
  apply (C10_first_interval 100 0 3); [repeat constructor | cbn; lia].
Defined.

(** * Further properties of the loop and of the handler *)

(** ** The handler's operations are in range *)

Lemma index_out_of_range {A} (l : list A) (i : Z) :
  len l <= i \/ i < - len l -> index l i = Raise IndexError.
Proof.
  intros Hi. unfold index.
  destruct (Z.ltb_spec i 0) as [Hneg|Hpos].
  - destruct Hi as [Hi|Hi]; [unfold len in Hi; lia|].
    destruct (Z.ltb_spec (len l + i) 0); [reflexivity | lia].
  - destruct Hi as [Hi|Hi]; [|unfold len in Hi; lia].
    destruct (Z.ltb_spec i 0); [lia|].
    rewrite lookup_ge_None_2; [reflexivity | unfold len in Hi; lia].
Qed.

(** X1: The operations of the handler that can fail on finite numbers are
    always in range.  In the model a subscript out of range raises
    [IndexError], [max] of an empty sequence raises [ValueError] and a
    division by zero raises [ZeroDivisionError]; for a non-empty history
    the subscripts [s[0]], [s[n//2]] and [s[-1]] of the sorted history and
    the division by [n] succeed, the dictionary of bucket counts is not
    empty and its largest count is positive, so every bar is computed; and
    from every state the handler reaches [sys.exit(0)] without any of
    these three exceptions. *)
Theorem X1_handler_in_range :
  ((forall (l : list Q) i, len l <= i \/ i < - len l -> index l i = Raise IndexError) /\
   max_ [] = Raise ValueError /\
   (forall a, truediv a 0 = Raise ZeroDivisionError) /\
   (forall c, c <> 0 -> bar_of c 0 = Raise ZeroDivisionError)) /\
  (forall l : list Q, l <> [] ->
     (exists a, index (sorted l) 0 = Ok a) /\
     (exists m, index (sorted l) (len (sorted l) `div` 2) = Ok m) /\
     (exists z, index (sorted l) (-1) = Ok z) /\
     (exists q, truediv (sumQ (sorted l)) (inject_Z (len (sorted l))) = Ok q)) /\
  (forall ivs : list Q, ivs <> [] ->
     exists buckets M,
       for_each count_interval ∅ ivs = Ok buckets /\ buckets <> ∅ /\
       max_values buckets = Ok M /\ 0 < M /\
       forall c, exists bar, bar_of c M = Ok bar) /\
  (forall pds : list Q, pds <> [] ->
     exists dbuckets M,
       for_each count_delta ∅ pds = Ok dbuckets /\
       max_values dbuckets = Ok M /\ 0 < M /\
       forall c, exists bar, bar_of c M = Ok bar) /\
  (forall st, exists out, show_histogram st = Ok (out, 0)) /\
  (forall st e, show_histogram st <> Raise e).
Proof.
  split; [|split; [|split; [|split; [|split]]]].
  - split; [intros l i; apply index_out_of_range|]. split; [reflexivity|].
    split; [intros a; now apply truediv_zero|].
    intros c Hc. unfold bar_of. destruct (Z.eqb_spec c 0); [contradiction|].
    now rewrite truediv_zero.
  - intros l Hne.
    assert (Hlen : (0 < length (sorted l))%nat).
    { rewrite sorted_length. destruct l; [congruence | cbn; lia]. }
    destruct (lookup_lt_is_Some_2 (sorted l) 0%nat Hlen) as [a Ha].
    destruct (lookup_lt_is_Some_2 (sorted l) (length (sorted l) / 2)%nat) as [m Hm];
      [apply Nat.div_lt; lia|].
    destruct (last (sorted l)) as [z|] eqn:Hz.
    2:{ apply last_None in Hz. rewrite Hz in Hlen. cbn in Hlen. lia. }
    split; [exists a; exact (index_nonneg _ 0%nat _ Ha)|].
    split; [exists m; now apply index_median|].
    split; [exists z; now apply index_last|].
    eexists. apply truediv_Ok, inject_Z_nonzero. unfold len. lia.
  - intros [|iv ivs] Hne; [congruence|].
    destruct (max_values_tally (bucket_of iv) (bucket_of <$> ivs)) as (M & HM & _ & _ & Hpos).
    eexists _, M. split; [apply for_each_count_interval|].
    split; [apply tally_all_nonempty|]. split; [exact HM|]. split; [exact Hpos|].
    intros c. eexists. apply bar_of_eq. lia.
  - intros [|d pds] Hne; [congruence|].
    destruct (max_values_tally (Q2Qc (dbucket_of d)) ((fun d => Q2Qc (dbucket_of d)) <$> pds))
      as (M & HM & _ & _ & Hpos).
    eexists _, M. split; [apply for_each_count_delta|].
    split; [exact HM|]. split; [exact Hpos|].
    intros c. eexists. apply bar_of_eq. lia.
  - apply show_histogram_total.
  - intros st e He. destruct (show_histogram_total st) as (out & Hout). congruence.
Qed.

(** ** The histories only grow *)

(** X2: Over any stretch of iterations, from any state, the interval
    history and the power-delta history only grow at their end (the old
    history is a prefix of the new one) and the event counter never
    decreases. *)
Theorem X2_histories_grow (st : state) (ss : list sample) :
  exists st' rs,
    run st ss = Ok (st', rs) /\
    intervals st `prefix_of` intervals st' /\
    power_deltas st `prefix_of` power_deltas st' /\
    sample_num st <= sample_num st'.
Proof.
  destruct (run_total ss st) as (st' & rs & H). exists st', rs.
  split; [exact H|].
  pose proof (run_reports _ _ _ _ H) as (_ & Hn & Hiv).
  pose proof (run_power_deltas _ _ _ _ H) as (Hpd & _ & _).
  split; [rewrite Hiv; now eexists|].
  split; [rewrite Hpd; now eexists|].
  unfold len in Hn. lia.
Qed.

(** ** The printed deltas chain the readings *)

Lemma sumZ_cons (x : Z) (l : list Z) : sumZ (x :: l) = x + sumZ l.
Proof.
  unfold sumZ. cbn [foldl].
  assert (G : forall l a b, foldl Z.add (a + b) l = a + foldl Z.add b l).
  { clear. induction l as [|y l IH]; intros a b; cbn [foldl]; [reflexivity|].
    rewrite <- IH. f_equal. lia. }
  rewrite <- G. f_equal. lia.
Qed.

Lemma default_last_cons {A} (c x : A) (l : list A) :
  default c (last (x :: l)) = default x (last l).
Proof.
  destruct l as [|y l]; [reflexivity|].
  change (last (x :: y :: l)) with (last (y :: l)).
  destruct (last (y :: l)) eqn:E; [reflexivity|].
  apply last_None in E. discriminate.
Qed.

Lemma run_deltas ss : forall st st' rs,
  run st ss = Ok (st', rs) ->
  Forall (fun r => r_delta r <> 0) rs /\
  sumZ (r_delta <$> rs) = prev_charge st' - prev_charge st /\
  prev_charge st' = default (prev_charge st) (last (charge_now <$> ss)) /\
  (forall r, head rs = Some r -> r_charge r - r_delta r = prev_charge st) /\
  (forall (i : nat) r r', rs !! i = Some r -> rs !! S i = Some r' ->
                          r_charge r' - r_delta r' = r_charge r).
Proof.
  induction ss as [|s ss IH]; intros st st' rs H.
  - cbn in H. injection H as <- <-. cbn.
    repeat split; try constructor; try lia; intros; discriminate.
  - assert (Hlast : forall c, default c (last (charge_now <$> s :: ss))
                              = default (charge_now s) (last (charge_now <$> ss))).
    { intros c. cbn [fmap list_fmap]. apply default_last_cons. }
    apply run_cons_inv in H as [[E H]|[E (rs' & -> & H)]].
    + destruct (IH _ _ _ H) as (H1 & H2 & H3 & H4 & H5).
      rewrite Hlast, E. auto.
    + destruct (IH _ _ _ H) as (H1 & H2 & H3 & H4 & H5).
      cbn [next_state prev_charge] in H2, H3, H4.
      split; [constructor; [cbn; lia | exact H1]|].
      split; [cbn [fmap list_fmap]; rewrite sumZ_cons, H2; cbn; lia|].
      split; [now rewrite Hlast|].
      split; [intros r [= <-]; cbn; lia|].
      intros [|i] r r' Hr Hr'.
      * cbn in Hr. injection Hr as <-. cbn in Hr'. apply H4.
        now destruct rs'.
      * cbn in Hr, Hr'. eapply H5; eassumption.
Qed.

(** X3: In every run the report lines chain the readings: no report has
    delta 0, the first report's delta is taken from the initial reading and
    each later one from the charge of the report before it, the deltas add
    up to the last reading minus the initial one, and the recorded
    previous charge is always the most recent reading. *)
Theorem X3_deltas_chain (c0 r0 : Z) (t0 : Q) (ss : list sample) :
  exists st rs,
    run (init c0 r0 t0) ss = Ok (st, rs) /\
    Forall (fun r => r_delta r <> 0) rs /\
    (forall r, head rs = Some r -> r_charge r - r_delta r = c0) /\
    (forall (i : nat) r r', rs !! i = Some r -> rs !! S i = Some r' ->
                            r_charge r' - r_delta r' = r_charge r) /\
    sumZ (r_delta <$> rs) = prev_charge st - c0 /\
    prev_charge st = default c0 (last (charge_now <$> ss)).
Proof.
  destruct (run_total ss (init c0 r0 t0)) as (st & rs & H). exists st, rs.
  split; [exact H|].
  destruct (run_deltas _ _ _ _ H) as (H1 & H2 & H3 & H4 & H5).
  cbn [init prev_charge] in *. auto 10.
Qed.

(** ** The intervals chain the clock readings of the change events *)

Lemma elapsed_ms_cons (t t1 : Q) (ts : list Q) :
  elapsed_ms t (t1 :: ts) = ((t1 - t) * 1000)%Q :: elapsed_ms t1 ts.
Proof. reflexivity. Qed.

Lemma change_polls_length (ss : list sample) : forall c,
  length (change_polls c ss) = changes c (charge_now <$> ss).
Proof.
  induction ss as [|s ss IH]; intros c; [reflexivity|].
  cbn [change_polls fmap list_fmap changes].
  destruct (Z.eqb_spec (charge_now s) c) as [<-|E]; cbn [length]; rewrite IH; reflexivity.
Qed.

Lemma run_change_polls ss : forall st st' rs,
  run st ss = Ok (st', rs) ->
  let cps := change_polls (prev_charge st) ss in
  intervals st' = intervals st ++ elapsed_ms (prev_time st) (monotonic <$> cps) /\
  prev_time st' = default (prev_time st) (last (monotonic <$> cps)) /\
  prev_rapl st' = default (prev_rapl st) (last (energy_uj <$> cps)) /\
  r_charge <$> rs = charge_now <$> cps /\
  r_voltage <$> rs = voltage_now <$> cps.
Proof.
  induction ss as [|s ss IH]; intros st st' rs H.
  - cbn in H. injection H as <- <-. cbn. now rewrite app_nil_r.
  - apply run_cons_inv in H as [[E H]|[E (rs' & -> & H)]].
    + cbn [change_polls]. apply Z.eqb_eq in E. rewrite E. now apply IH.
    + cbn [change_polls]. apply Z.eqb_neq in E. rewrite E.
      destruct (IH _ _ _ H) as (H1 & H2 & H3 & H4 & H5).
      cbn [next_state intervals prev_time prev_rapl prev_charge] in H1, H2, H3, H4, H5.
      cbn zeta. cbn [fmap list_fmap]. rewrite elapsed_ms_cons, !default_last_cons.
      split; [now rewrite H1, <- app_assoc|].
      split; [exact H2|]. split; [exact H3|].
      change (list_fmap _ _ ?f ?l) with (f <$> l).
      rewrite H4, H5. split; reflexivity.
Qed.

(** X4: No poll without a change restarts the interval timer: in every run
    the k-th recorded interval is the clock reading of the k-th change
    event minus the clock reading of the change event before it (the
    baseline read at start-up for the first), times 1000, whatever the
    number of polls in between; the intervals are the values printed in
    the report lines, and the recorded previous time is the clock reading
    of the last change event, or the baseline if there was none. *)
Theorem X4_intervals_chain (c0 r0 : Z) (t0 : Q) (ss : list sample) :
  exists st rs,
    run (init c0 r0 t0) ss = Ok (st, rs) /\
    let ts := monotonic <$> change_polls c0 ss in
    length ts = length rs /\
    intervals st = elapsed_ms t0 ts /\
    r_dt_ms <$> rs = intervals st /\
    (forall (k : nat) iv, intervals st !! k = Some iv ->
       exists t' t, (t0 :: ts) !! k = Some t' /\ ts !! k = Some t /\
                    iv = ((t - t') * 1000)%Q) /\
    prev_time st = default t0 (last ts).
Proof.
  destruct (run_total ss (init c0 r0 t0)) as (st & rs & H). exists st, rs.
  split; [exact H|].
  destruct (run_change_polls _ _ _ _ H) as (H1 & H2 & _ & _ & _).
  pose proof (run_reports _ _ _ _ H) as (Hch & _ & Hiv).
  cbn [init intervals prev_time prev_charge app] in *. cbn zeta.
  split; [now rewrite length_fmap, change_polls_length|].
  split; [exact H1|]. split; [now rewrite Hiv|]. split; [|exact H2].
  rewrite H1. generalize (monotonic <$> change_polls c0 ss). clear.
  intros ts. revert t0. induction ts as [|t1 ts IH]; intros t0 k iv Hk; [discriminate|].
  rewrite elapsed_ms_cons in Hk. destruct k as [|k].
  - cbn in Hk. injection Hk as <-. exists t0, t1. repeat split; reflexivity.
  - cbn [lookup list_lookup] in Hk. destruct (IH t1 k iv Hk) as (t' & t & Ht' & Ht & ->).
    exists t', t. repeat split; assumption.
Qed.

(** ** Only the change events matter *)

Lemma run_change_polls_only ss : forall st,
  run st ss = run st (change_polls (prev_charge st) ss).
Proof.
  induction ss as [|s ss IH]; intros st; [reflexivity|].
  cbn [change_polls]. destruct (Z.eqb_spec (charge_now s) (prev_charge st)) as [E|E].
  - rewrite run_cons_same by assumption. apply IH.
  - rewrite !run_cons_changed by assumption.
    now rewrite (IH (next_state st s)).
Qed.

(** X5: The polls that find the reading unchanged leave no trace: a run
    ends in the same state and prints the same report lines as the run
    over its change events alone (the iterations whose reading differs
    from the one before), so the clock, voltage and energy values at the
    other polls, and the number of such polls, have no influence; the
    report lines correspond one to one to the change events and show
    their charge and voltage readings. *)
Theorem X5_only_change_events_matter (st : state) (ss : list sample) :
  let cps := change_polls (prev_charge st) ss in
  run st ss = run st cps /\
  change_polls (prev_charge st) cps = cps /\
  length cps = changes (prev_charge st) (charge_now <$> ss) /\
  exists st' rs,
    run st ss = Ok (st', rs) /\
    length rs = length cps /\
    r_charge <$> rs = charge_now <$> cps /\
    r_voltage <$> rs = voltage_now <$> cps.
Proof.
  cbn zeta. split; [apply run_change_polls_only|].
  split.
  - generalize (prev_charge st). induction ss as [|s ss IH]; intros c; [reflexivity|].
    cbn [change_polls]. destruct (Z.eqb_spec (charge_now s) c) as [E|E]; [apply IH|].
    cbn [change_polls]. apply Z.eqb_neq in E. rewrite E. now rewrite IH.
  - split; [apply change_polls_length|].
    destruct (run_total ss st) as (st' & rs & H). exists st', rs.
    split; [exact H|].
    destruct (run_change_polls _ _ _ _ H) as (_ & _ & _ & H4 & H5).
    split; [|split; assumption].
    apply (f_equal length) in H4. now rewrite !length_fmap in H4.
Qed.

(** ** Signs of the power estimates *)

Lemma guard_pos_nonneg (d v : Q) : (0 <= v)%Q -> (0 <= guard_pos d v)%Q.
Proof. intros H. unfold guard_pos. destruct (Qpos_bool d); [exact H | lra]. Qed.

Lemma guard_pos_Qeq (d d' v v' : Q) :
  (d == d')%Q -> (v == v')%Q -> (guard_pos d v == guard_pos d' v')%Q.
Proof.
  intros Ed Ev. unfold guard_pos.
  destruct (Qpos_bool d) eqn:E1, (Qpos_bool d') eqn:E2; try assumption; try reflexivity.
  - apply Qpos_bool_true in E1. apply Qpos_bool_false in E2. lra.
  - apply Qpos_bool_false in E1. apply Qpos_bool_true in E2. lra.
Qed.

(** X6: The battery-derived power estimates are unsigned: in every report
    line the instantaneous and the windowed-average power are
    non-negative, whatever the sign of the charge delta, and a charge
    delta and its opposite give the same instantaneous power; when the
    clock has not advanced since the previous event (elapsed time zero or
    negative) both instantaneous estimates are zero. *)
Theorem X6_power_unsigned :
  (forall st s, exists st' o,
      poll st s = Ok (st', o) /\
      forall r, o = Some r ->
        (0 <= r_power_w r)%Q /\ (0 <= r_avg_w r)%Q /\
        ((monotonic s <= prev_time st)%Q -> r_power_w r = 0%Q /\ r_rapl_w r = 0%Q)) /\
  (forall d v dt, exists p p',
      inst_power_w d v dt = Ok p /\ inst_power_w (- d) v dt = Ok p' /\ (p == p')%Q).
Proof.
  split.
  - intros st s. destruct (poll_cases st s) as [[E ->]|[E ->]].
    + eexists _, _. split; [reflexivity|]. intros r [=].
    + eexists _, _. split; [reflexivity|]. intros r [= <-].
      cbn [report_of r_power_w r_avg_w r_rapl_w].
      split; [apply guard_pos_nonneg, Qabs_nonneg|].
      split; [apply guard_pos_nonneg, Qabs_nonneg|].
      intros Hle. split; apply guard_pos_zero; lra.
  - intros d v dt. rewrite !inst_power_w_eq. eexists _, _.
    split; [reflexivity|]. split; [reflexivity|].
    apply guard_pos_Qeq; [reflexivity|].
    replace (- d * v) with (- (d * v)) by lia. rewrite inject_Z_opp.
    rewrite <- (Qabs_opp (inject_Z (d * v) * c3_6e_6 / dt)).
    apply Qabs_wd. unfold Qdiv. ring.
Qed.

(** ** The first change event *)

Lemma sumQ_cons (x : Q) (l : list Q) : (sumQ (x :: l) == x + sumQ l)%Q.
Proof.
  unfold sumQ. cbn [foldl].
  assert (G : forall l a b, (foldl Qplus (a + b) l == a + foldl Qplus b l)%Q).
  { clear. induction l as [|y l IH]; intros a b; cbn [foldl]; [reflexivity|].
    rewrite <- IH.
    assert (E : forall u w, (u == w)%Q -> (foldl Qplus u l == foldl Qplus w l)%Q).
    { clear. induction l as [|z l IH]; intros u w Huw; cbn [foldl]; [exact Huw|].
      apply IH. now rewrite Huw. }
    apply E. ring. }
  rewrite <- G.
  assert (E : forall l u w, (u == w)%Q -> (foldl Qplus u l == foldl Qplus w l)%Q).
  { clear. induction l as [|z l IH]; intros u w Huw; cbn [foldl]; [exact Huw|].
    apply IH. now rewrite Huw. }
  apply E. ring.
Qed.

Lemma run_first_report ss : forall st st' rs r,
  window st = [] ->
  run st ss = Ok (st', rs) ->
  head rs = Some r ->
  (r_avg_w r == r_power_w r)%Q /\ (r_rapl_avg_w r == r_rapl_w r)%Q /\
  r_sample_num r = sample_num st + 1.
Proof.
  induction ss as [|s ss IH]; intros st st' rs r Hw H Hr.
  - cbn in H. injection H as <- <-. discriminate.
  - apply run_cons_inv in H as [[E H]|[E (rs' & -> & H)]]; [eapply IH; eassumption|].
    cbn in Hr. injection Hr as <-.
    cbn [report_of r_avg_w r_power_w r_rapl_avg_w r_rapl_w r_sample_num].
    rewrite Hw. unfold push_window. cbn [app].
    change (AVG_WINDOW <? len [_]) with false. cbv iota.
    unfold sum_dt, sum_energy, sum_rapl, sumQ, sumZ. cbn [map foldl].
    split; [|split; [|reflexivity]].
    + apply guard_pos_Qeq; [ring|]. apply Qabs_wd.
      rewrite !Qplus_0_l. reflexivity.
    + apply guard_pos_Qeq; [ring|]. rewrite !Qplus_0_l. reflexivity.
Qed.

(** X7: On the first change event of a run the window holds that event
    alone, so the windowed averages printed in the first report line
    coincide with its instantaneous values (AVG30 with POWER, RAPL_AVG with
    RAPL). *)
Theorem X7_first_report_averages (c0 r0 : Z) (t0 : Q) (ss : list sample) :
  exists st rs,
    run (init c0 r0 t0) ss = Ok (st, rs) /\
    forall r, head rs = Some r ->
      r_sample_num r = 1 /\
      (r_avg_w r == r_power_w r)%Q /\ (r_rapl_avg_w r == r_rapl_w r)%Q.
Proof.
  destruct (run_total ss (init c0 r0 t0)) as (st & rs & H). exists st, rs.
  split; [exact H|]. intros r Hr.
  destruct (run_first_report ss (init c0 r0 t0) st rs r eq_refl H Hr) as (H1 & H2 & H3).
  cbn in H3. auto.
Qed.

(** ** Every value lies in the range of its row *)

(** X8: An update interval is counted in the row whose printed range
    contains it: its bucket [b] is a multiple of [HIST_BUCKET_MS] with
    [b <= iv < b + HIST_BUCKET_MS], for negative intervals too. *)
Theorem X8_interval_in_its_bucket (iv : Q) :
  exists b,
    interval_bucket iv = Ok b /\
    (HIST_BUCKET_MS | b) /\
    (inject_Z b <= iv)%Q /\ (iv < inject_Z (b + HIST_BUCKET_MS))%Q.
Proof.
  exists (bucket_of iv). split; [apply interval_bucket_eq|].
  unfold bucket_of, HIST_BUCKET_MS.
  set (y := (iv / inject_Z 100)%Q).
  assert (Ey : (iv == y * 100)%Q) by (unfold y; field).
  pose proof (Qfloor_le y) as Hf. pose proof (Qlt_floor y) as Hc.
  rewrite inject_Z_plus in Hc. change (inject_Z 1) with 1%Q in Hc.
  split; [now exists (Qfloor y)|].
  rewrite inject_Z_plus, inject_Z_mult. change (inject_Z 100) with 100%Q.
  split; lra.
Qed.

(** X9: A power delta is counted in a row whose printed range, taken with
    both of its ends, contains it: the bucket [b] is a multiple of
    [DELTA_BUCKET_W] with [b <= d < b + DELTA_BUCKET_W] for a non-negative
    delta and [b < d <= b + DELTA_BUCKET_W] for a negative one (the rows
    below zero are closed at their upper end, the others at their lower
    end). *)
Theorem X9_delta_in_its_bucket (d : Q) :
  exists b,
    delta_bucket d = Ok b /\
    (exists k : Z, b == inject_Z k * DELTA_BUCKET_W)%Q /\
    ((0 <= d)%Q -> (b <= d)%Q /\ (d < b + DELTA_BUCKET_W)%Q) /\
    ((d < 0)%Q -> (b < d)%Q /\ (d <= b + DELTA_BUCKET_W)%Q).
Proof.
  destruct (Qlt_le_dec d 0) as [Hneg|Hpos].
  - rewrite delta_bucket_neg by assumption. eexists. split; [reflexivity|].
    set (x := (- d / DELTA_BUCKET_W)%Q).
    assert (Ex : (d == - (x * DELTA_BUCKET_W))%Q) by (unfold x, DELTA_BUCKET_W; field).
    pose proof (Qfloor_le x) as Hf. pose proof (Qlt_floor x) as Hc.
    rewrite inject_Z_plus in Hc. change (inject_Z 1) with 1%Q in Hc.
    unfold DELTA_BUCKET_W in *. split.
    + exists (- (Qfloor x + 1)). rewrite inject_Z_opp, inject_Z_plus. reflexivity.
    + split; [intros; lra|]. intros _. split; lra.
  - rewrite delta_bucket_nonneg by assumption. eexists. split; [reflexivity|].
    unfold floor_bucket. set (x := (d / DELTA_BUCKET_W)%Q).
    assert (Ex : (d == x * DELTA_BUCKET_W)%Q) by (unfold x, DELTA_BUCKET_W; field).
    pose proof (Qfloor_le x) as Hf. pose proof (Qlt_floor x) as Hc.
    rewrite inject_Z_plus in Hc. change (inject_Z 1) with 1%Q in Hc.
    unfold DELTA_BUCKET_W in *. split.
    + exists (Qfloor x). reflexivity.
    + split; [|intros; lra]. intros _. split; lra.
Qed.

(** ** The summary lines *)

(** Minimum, median and maximum as [show_histogram] takes them from a
    sorted history: recorded values, in this order, the outer two bounding
    every recorded value. *)
Lemma stats_ordered (l : list Q) (mn med mx : Q) :
  sorted l !! 0%nat = Some mn ->
  sorted l !! (length l / 2)%nat = Some med ->
  last (sorted l) = Some mx ->
  (mn <= med <= mx)%Q /\
  (mn ∈ l /\ med ∈ l /\ mx ∈ l) /\
  forall x, x ∈ l -> (mn <= x <= mx)%Q.
Proof.
  intros Hmn Hmed Hmx.
  destruct (sorted_min_max l mn mx Hmn Hmx) as (Imn & Imx & Hb).
  assert (Imed : med ∈ l).
  { rewrite <- (sorted_perm l). eapply list_elem_of_lookup_2; eassumption. }
  split; [now apply Hb|]. split; [|exact Hb]. auto.
Qed.

(** The rows printed by the [while] loop are rows. *)
Lemma delta_rows_are_rows (dbuckets : gmap Qc Z) (dmax : Z) (hi b : Q) (rows : list line) :
  dmax <> 0 ->
  delta_rows dbuckets dmax hi b = Ok rows ->
  Forall (fun l => exists b' bar count, l = DeltaRow b' bar count) rows.
Proof.
  intros Hd. revert rows. funelim (delta_rows dbuckets dmax hi b); intros rows Hrows.
  - rewrite delta_row_eq in Hrows by assumption. cbn [mbind result_bind] in Hrows.
    destruct (delta_rows dbuckets dmax hi (b + DELTA_BUCKET_W)) as [rows'|e] eqn:E;
      [|discriminate].
    cbn [mbind result_bind] in Hrows. injection Hrows as <-.
    constructor; [eauto|]. eapply H; eauto. exact (Text "").
  - injection Hrows as <-. constructor.
Qed.

(** The power-delta section with the bounds and the dictionary its loop
    runs on. *)
Lemma delta_section_rows (pds : list Q) :
  pds <> [] ->
  exists mn med mx lo M rows,
    sorted pds !! 0%nat = Some mn /\
    sorted pds !! (length pds / 2)%nat = Some med /\
    last (sorted pds) = Some mx /\
    0 < M /\
    (forall d, occurrences (Q2Qc (dbucket_of d)) ((fun d => Q2Qc (dbucket_of d)) <$> pds) <= M) /\
    lo = dbucket_of mn /\
    delta_rows (foldl tally ∅ ((fun d => Q2Qc (dbucket_of d)) <$> pds)) M
      (inject_Z (int (inject_Z (Qfloor (mx / DELTA_BUCKET_W)) + 1)) * DELTA_BUCKET_W)%Q lo
    = Ok rows /\
    delta_section pds
    = Ok (delta_header (len pds) mn med mx (sumQ (sorted pds) / inject_Z (len pds))
          ++ rows ++ [Text ""]).
Proof.
  intros Hne.
  assert (Hlen : (0 < length (sorted pds))%nat).
  { rewrite sorted_length. destruct pds; [congruence | cbn; lia]. }
  destruct (lookup_lt_is_Some_2 (sorted pds) 0%nat Hlen) as [mn Hmn].
  destruct (lookup_lt_is_Some_2 (sorted pds) (length pds / 2)%nat) as [med Hmed].
  { rewrite sorted_length in *. apply Nat.div_lt; lia. }
  destruct (last (sorted pds)) as [mx|] eqn:Hmx.
  2:{ apply last_None in Hmx. rewrite Hmx in Hlen. cbn in Hlen. lia. }
  destruct pds as [|d0 pds']; [congruence|]. set (pds := d0 :: pds') in *.
  destruct (max_values_tally (Q2Qc (dbucket_of d0)) ((fun d => Q2Qc (dbucket_of d)) <$> pds'))
    as (M & HM & _ & Hall & Hpos).
  destruct (delta_rows_total
              (foldl tally ∅ ((fun d => Q2Qc (dbucket_of d)) <$> pds)) M
              (inject_Z (int (inject_Z (Qfloor (mx / DELTA_BUCKET_W)) + 1)) * DELTA_BUCKET_W)%Q
              (dbucket_of mn)) as (rows & Hrows & _); [lia|].
  exists mn, med, mx, (dbucket_of mn), M, rows.
  repeat (split; [first [assumption | reflexivity | (intros d; apply Hall)]|]).
  unfold delta_section.
  change 0 with (Z.of_nat 0) at 1. rewrite (index_nonneg _ _ _ Hmn). cbn [mbind result_bind].
  rewrite (index_median _ med) by (now rewrite sorted_length).
  cbn [mbind result_bind]. rewrite (index_last _ _ Hmx). cbn [mbind result_bind].
  rewrite truediv_Ok by (apply inject_Z_nonzero; unfold len; lia).
  cbn [mbind result_bind].
  rewrite !floordiv_Ok by apply DELTA_BUCKET_W_nonzero. cbn [mbind result_bind].
  assert (Hlo : (if Qneg_bool mn
                 then Ok (- (inject_Z (Qfloor (- mn / DELTA_BUCKET_W)) + 1) * DELTA_BUCKET_W)%Q
                 else Ok (inject_Z (int (inject_Z (Qfloor (mn / DELTA_BUCKET_W))))
                          * DELTA_BUCKET_W)%Q)
                = Ok (dbucket_of mn)).
  { unfold dbucket_of, floor_bucket. rewrite int_inject_Z. now destruct (Qneg_bool mn). }
  rewrite Hlo. cbn [mbind result_bind].
  rewrite for_each_count_delta. cbn [mbind result_bind].
  change ((fun d => Q2Qc (dbucket_of d)) <$> pds)
    with (Q2Qc (dbucket_of d0) :: ((fun d => Q2Qc (dbucket_of d)) <$> pds')) in *.
  rewrite HM. cbn [mbind result_bind].
  rewrite Hrows. cbn [mbind result_bind].
  unfold len. rewrite sorted_length. reflexivity.
Qed.

Lemma stats_in_interval_part (n M : Z) (mn med mx mean : Q) (l : list Q) (bs : list Z)
    (x : line) :
  x ∈ interval_header n mn med mx mean ++ (row_of l M <$> bs) ++ [Text ""%string] ->
  match x with
  | IntervalStats a b c d => a = mn /\ b = med /\ c = mx /\ d = mean
  | DeltaStats _ _ _ _ => False
  | _ => True
  end.
Proof.
  unfold interval_header. rewrite !elem_of_app, !elem_of_cons, list_elem_of_fmap.
  intros [[->|[->|[->|[->|H]]]]|[(b & -> & _)|[->|H]]]; cbn; auto; inversion H.
Qed.

Lemma stats_in_delta_part (n : Z) (mn med mx mean : Q) (rows : list line) (x : line) :
  Forall (fun l => exists b' bar count, l = DeltaRow b' bar count) rows ->
  x ∈ delta_header n mn med mx mean ++ rows ++ [Text ""%string] ->
  match x with
  | DeltaStats a b c d => a = mn /\ b = med /\ c = mx /\ d = mean
  | IntervalStats _ _ _ _ => False
  | _ => True
  end.
Proof.
  intros Hall. rewrite Forall_forall in Hall.
  unfold delta_header. rewrite !elem_of_app, !elem_of_cons.
  intros [[->|[->|[->|[->|H]]]]|[H|[->|H]]]; cbn; auto; [inversion H | | inversion H].
  apply Hall in H as (? & ? & ? & ->). exact I.
Qed.

(** X10: The minimum, median and maximum of every summary line the
    handler prints are consistent with the history they summarise: for the
    update intervals and for the power deltas alike, each of the three is
    a recorded value, minimum <= median <= maximum, and every recorded
    value lies between the minimum and the maximum; the interval summary
    is printed, with the number of intervals in its title, whenever a
    change event was recorded, and the power-delta summary whenever in
    addition the power-delta history is non-empty. *)
Theorem X10_summary_ordered (st : state) :
  exists out,
    show_histogram st = Ok (out, 0) /\
    (forall mn med mx mean,
        IntervalStats mn med mx mean ∈ out ->
        (mn <= med <= mx)%Q /\
        (mn ∈ intervals st /\ med ∈ intervals st /\ mx ∈ intervals st) /\
        forall x, x ∈ intervals st -> (mn <= x <= mx)%Q) /\
    (forall mn med mx mean,
        DeltaStats mn med mx mean ∈ out ->
        (mn <= med <= mx)%Q /\
        (mn ∈ power_deltas st /\ med ∈ power_deltas st /\ mx ∈ power_deltas st) /\
        forall x, x ∈ power_deltas st -> (mn <= x <= mx)%Q) /\
    (intervals st <> [] ->
     IntervalTitle (len (intervals st)) ∈ out /\
     exists mn med mx mean, IntervalStats mn med mx mean ∈ out) /\
    (intervals st <> [] -> power_deltas st <> [] ->
     DeltaTitle (len (power_deltas st)) AVG_WINDOW ∈ out /\
     exists mn med mx mean, DeltaStats mn med mx mean ∈ out).
Proof.
  unfold show_histogram. destruct (intervals st) as [|iv ivs] eqn:Eiv.
  - eexists. split; [reflexivity|].
    split; [intros mn med mx mean H; apply list_elem_of_singleton in H; discriminate|].
    split; [intros mn med mx mean H; apply list_elem_of_singleton in H; discriminate|].
    split; congruence.
  - destruct (interval_section_eq (iv :: ivs))
      as (imn & imed & imx & M & Hmn & Hmed & Hmx & _ & _ & _ & ->); [discriminate|].
    cbn [mbind result_bind].
    pose proof (stats_ordered _ _ _ _ Hmn Hmed Hmx) as Hio.
    destruct (power_deltas st) as [|d ds] eqn:Epd.
    + eexists. split; [reflexivity|]. rewrite app_nil_r. split; [|split; [|split]].
      * intros mn med mx mean H. apply stats_in_interval_part in H. cbn in H.
        destruct H as (-> & -> & -> & ->). exact Hio.
      * intros mn med mx mean H. apply stats_in_interval_part in H. destruct H.
      * intros _. split; [unfold interval_header; right; left|].
        eexists _, _, _, _. unfold interval_header. right. right. left.
      * congruence.
    + destruct (delta_section_rows (d :: ds))
        as (dmn & dmed & dmx & lo & DM & rows & Hdmn & Hdmed & Hdmx & HDM & _ & _ & Hrows & ->);
        [discriminate|].
      cbn [mbind result_bind].
      pose proof (stats_ordered _ _ _ _ Hdmn Hdmed Hdmx) as Hdo.
      assert (Hall : Forall (fun l => exists b' bar count, l = DeltaRow b' bar count) rows).
      { eapply delta_rows_are_rows; [|exact Hrows]. lia. }
      eexists. split; [reflexivity|]. split; [|split; [|split]].
      * intros mn med mx mean H. apply elem_of_app in H as [H|H].
        -- apply stats_in_interval_part in H. cbn in H.
           destruct H as (-> & -> & -> & ->). exact Hio.
        -- apply (stats_in_delta_part _ _ _ _ _ _ _ Hall) in H. destruct H.
      * intros mn med mx mean H. apply elem_of_app in H as [H|H].
        -- apply stats_in_interval_part in H. destruct H.
        -- apply (stats_in_delta_part _ _ _ _ _ _ _ Hall) in H. cbn in H.
           destruct H as (-> & -> & -> & ->). exact Hdo.
      * intros _. split.
        -- apply elem_of_app. left. unfold interval_header. right. left.
        -- eexists _, _, _, _. apply elem_of_app. left.
           unfold interval_header. right. right. left.
      * intros _ _. split.
        -- apply elem_of_app. right. unfold delta_header. right. left.
        -- eexists _, _, _, _. apply elem_of_app. right.
           unfold delta_header. right. right. left.
Qed.

(** ** Rounding *)

Lemma round_bounds (x : Q) : Qfloor x <= round x <= Qfloor x + 1.
Proof.
  unfold round. destruct (_ ?= _)%Q; [destruct (Z.even _)|..]; lia.
Qed.

Lemma round_inject_Z (z : Z) : round (inject_Z z) = z.
Proof.
  unfold round. rewrite Qfloor_Z.
  assert (E : ((inject_Z z - inject_Z z) ?= (1 # 2))%Q = Lt).
  { apply (proj1 (Qlt_alt _ _)). lra. }
  now rewrite E.
Qed.

Lemma round_mono (x y : Q) : (x <= y)%Q -> round x <= round y.
Proof.
  intros Hxy. pose proof (Qfloor_resp_le _ _ Hxy) as Hf.
  pose proof (round_bounds x) as Hx. pose proof (round_bounds y) as Hy.
  destruct (Z.eq_dec (Qfloor x) (Qfloor y)) as [E|E]; [|lia].
  unfold round in *. rewrite <- E in *. clear Hx Hy Hf.
  destruct (Qcompare_spec (x - inject_Z (Qfloor x)) (1 # 2)) as [Ex|Ex|Ex];
    destruct (Qcompare_spec (y - inject_Z (Qfloor x)) (1 # 2)) as [Ey|Ey|Ey];
    try destruct (Z.even (Qfloor x)); try lia; exfalso; lra.
Qed.

(** For a non-negative argument [round] gives 0 exactly up to one half,
    the tie going to the even neighbour 0. *)
Lemma round_zero_iff (x : Q) : (0 <= x)%Q -> round x = 0 <-> (x <= 1 # 2)%Q.
Proof.
  intros Hx. split.
  - intros Hr. destruct (Qlt_le_dec (1 # 2) x) as [Hlt|Hle]; [exfalso|exact Hle].
    pose proof (round_bounds x) as Hb.
    destruct (Qlt_le_dec x 1) as [H1|H1].
    + assert (Ef : Qfloor x = 0) by (apply Qfloor_unique; [exact Hx | exact H1]).
      unfold round in Hr. rewrite Ef in Hr.
      assert (Ec : ((x - inject_Z 0) ?= (1 # 2))%Q = Gt).
      { apply (proj1 (Qgt_alt _ _)). change (inject_Z 0) with 0%Q. lra. }
      rewrite Ec in Hr. discriminate.
    + assert (1 <= Qfloor x); [|lia].
      change 1 with (Qfloor (inject_Z 1)). apply Qfloor_resp_le. exact H1.
  - intros Hle.
    assert (Ef : Qfloor x = 0) by (apply Qfloor_unique; [exact Hx | change (inject_Z (0 + 1)) with 1%Q; lra]).
    unfold round. rewrite Ef. change (inject_Z 0) with 0%Q.
    destruct (Qcompare_spec (x - 0) (1 # 2)) as [E|E|E]; [reflexivity | reflexivity | lra].
Qed.

(** ** The rows of the interval histogram, as the handler prints them *)

Lemma interval_rows_delta_part (n : Z) (mn med mx mean : Q) (rows : list line) :
  Forall (fun l => exists b' bar count, l = DeltaRow b' bar count) rows ->
  interval_rows (delta_header n mn med mx mean ++ rows ++ [Text ""%string]) = [].
Proof.
  intros Hall. rewrite !interval_rows_app.
  change (interval_rows (delta_header n mn med mx mean)) with (@nil (Z * string * Z)).
  change (interval_rows [Text ""%string]) with (@nil (Z * string * Z)).
  rewrite app_nil_r, app_nil_l.
  induction Hall as [|l rows (b & bar & c & ->) _ IH]; [reflexivity|].
  cbn. exact IH.
Qed.

(** The handler's interval rows are those of the interval section. *)
Lemma show_histogram_interval_rows (st : state) :
  intervals st <> [] ->
  exists out isec,
    interval_section (intervals st) = Ok isec /\
    show_histogram st = Ok (out, 0) /\
    interval_rows out = interval_rows isec.
Proof.
  intros Hne. unfold show_histogram.
  destruct (interval_section_eq _ Hne)
    as (imn & imed & imx & M & _ & _ & _ & _ & _ & _ & Hsec).
  destruct (intervals st) as [|iv ivs] eqn:Eiv; [congruence|].
  rewrite Hsec. cbn [mbind result_bind].
  destruct (power_deltas st) as [|d ds] eqn:Epd.
  - eexists _, _. split; [reflexivity|]. split; [reflexivity|]. now rewrite app_nil_r.
  - destruct (delta_section_rows (d :: ds))
      as (dmn & dmed & dmx & lo & DM & rows & _ & _ & _ & HDM & _ & _ & Hrows & ->);
      [discriminate|].
    cbn [mbind result_bind]. eexists _, _. split; [reflexivity|]. split; [reflexivity|].
    rewrite (interval_rows_app _ (delta_header _ _ _ _ _ ++ _)).
    rewrite interval_rows_delta_part; [now rewrite app_nil_r|].
    eapply delta_rows_are_rows; [|exact Hrows]. lia.
Qed.

Lemma sumZ_fmap_add {A} (f g : A -> Z) (l : list A) :
  sumZ ((fun x => f x + g x) <$> l) = sumZ (f <$> l) + sumZ (g <$> l).
Proof.
  induction l as [|x l IH]; [reflexivity|].
  cbn [fmap list_fmap]. rewrite !sumZ_cons. fold (fmap f l) (fmap g l).
  fold (fmap (fun x => f x + g x) l). lia.
Qed.

Lemma sumZ_indicator (b' : Z) (L : list Z) :
  NoDup L -> b' ∈ L ->
  sumZ ((fun b => if decide (b = b') then 1 else 0) <$> L) = 1.
Proof.
  induction 1 as [|b L Hnin Hnd IH]; intros Hin; [inversion Hin|].
  cbn [fmap list_fmap]. rewrite sumZ_cons.
  fold (fmap (fun b => if decide (b = b') then 1 else 0) L).
  destruct (decide (b = b')) as [->|Hne].
  - assert (Hz : sumZ ((fun b => if decide (b = b') then 1 else 0) <$> L) = 0).
    { clear IH Hin Hnd. induction L as [|c L IH]; [reflexivity|].
      cbn [fmap list_fmap]. rewrite sumZ_cons.
      fold (fmap (fun b => if decide (b = b') then 1 else 0) L).
      apply not_elem_of_cons in Hnin as [Hc Hnin].
      destruct (decide (c = b')); [congruence|]. rewrite IH by assumption. lia. }
    rewrite Hz. lia.
  - apply elem_of_cons in Hin as [->|Hin]; [congruence|].
    rewrite IH by assumption. lia.
Qed.

(** Counting [bs] bucket by bucket over a duplicate-free list of buckets
    that holds every bucket of [bs] counts each element once. *)
Lemma sumZ_occurrences (bs L : list Z) :
  NoDup L -> (forall b, b ∈ bs -> b ∈ L) ->
  sumZ ((fun b => occurrences b bs) <$> L) = len bs.
Proof.
  intros Hnd. induction bs as [|b' bs IH]; intros Hin.
  - unfold occurrences, len. cbn. clear. induction L as [|c L IH]; [reflexivity|].
    cbn [fmap list_fmap]. rewrite sumZ_cons. exact IH.
  - assert (E : (fun b => occurrences b (b' :: bs))
                = (fun b => (if decide (b = b') then 1 else 0) + occurrences b bs)).
    { apply functional_extensionality. intros b. apply occurrences_cons. }
    rewrite E, sumZ_fmap_add, sumZ_indicator by (try assumption; apply Hin; left).
    rewrite IH by (intros b Hb; apply Hin; now right).
    unfold len. cbn [length]. lia.
Qed.

Lemma NoDup_rows_buckets (mn mx : Q) :
  (mn <= mx)%Q -> NoDup (buckets_between mn mx ++ [bucket_of mx + HIST_BUCKET_MS]).
Proof.
  intros Hle. apply bucket_of_mono in Hle. apply NoDup_app. split; [|split].
  - unfold buckets_between. apply NoDup_fmap_2; [|apply NoDup_seqZ].
    intros k1 k2 Hk. unfold HIST_BUCKET_MS in Hk. lia.
  - intros b Hb Hlast. apply list_elem_of_singleton in Hlast as ->.
    unfold buckets_between in Hb. apply list_elem_of_fmap in Hb as (k & Hk & Hin).
    apply elem_of_seqZ in Hin. revert Hk Hin Hle. unfold bucket_of, HIST_BUCKET_MS.
    set (a := Qfloor (mn / inject_Z 100)). set (c := Qfloor (mx / inject_Z 100)).
    replace (c * 100 - a * 100) with ((c - a) * 100) by lia.
    rewrite Z.div_mul by lia. lia.
  - apply NoDup_singleton.
Qed.

(** X11: The counts of the interval histogram rows add up to the number of
    recorded intervals: every interval of the history is counted in
    exactly one printed row, whatever the state the handler runs in. *)
Theorem X11_row_counts_sum_to_samples (st : state) :
  exists out,
    show_histogram st = Ok (out, 0) /\
    sumZ ((interval_rows out).*2) = len (intervals st).
Proof.
  destruct (intervals st) as [|iv ivs] eqn:Eiv.
  - unfold show_histogram. rewrite Eiv. eexists. split; reflexivity.
  - destruct (show_histogram_interval_rows st) as (out & isec & Hsec & Hshow & Hrows);
      [congruence|].
    exists out. split; [exact Hshow|]. rewrite Hrows, Eiv in *.
    destruct (interval_histogram_rows (iv :: ivs))
      as (isec' & mn & mx & M & Hsec' & (Hmn & Hmx & Hb) & _ & Hrows'); [discriminate|].
    rewrite Hsec in Hsec'. injection Hsec' as <-.
    rewrite Hrows', <- list_fmap_compose.
    change (snd ∘ (fun b => (b, bar_str (count_in (iv :: ivs) b) M, count_in (iv :: ivs) b)))
      with (fun b => occurrences b (bucket_of <$> iv :: ivs)).
    rewrite sumZ_occurrences.
    + unfold len. now rewrite length_fmap.
    + apply NoDup_rows_buckets. now apply Hb.
    + intros b Hin. apply list_elem_of_fmap in Hin as (x & -> & Hx).
      apply elem_of_app. left. apply bucket_in_between. now apply Hb.
Qed.

(** ** The bars *)

Lemma bar_arg_mono (c c' M : Z) :
  0 < M -> c <= c' ->
  (inject_Z c / inject_Z M * inject_Z bar_w
   <= inject_Z c' / inject_Z M * inject_Z bar_w)%Q.
Proof.
  intros HM Hc.
  assert (HMq : (0 < inject_Z M)%Q) by (change 0%Q with (inject_Z 0); now rewrite <- Zlt_Qlt).
  apply Qmult_le_compat_r; [|now vm_compute].
  unfold Qdiv. apply Qmult_le_compat_r; [now rewrite <- Zle_Qle|].
  apply Qlt_le_weak, Qinv_lt_0_compat, HMq.
Qed.

Lemma bar_arg_full (M : Z) :
  0 < M -> (inject_Z M / inject_Z M * inject_Z bar_w == inject_Z bar_w)%Q.
Proof.
  intros HM. field. apply inject_Z_nonzero. lia.
Qed.

(** The length of a bar: between 0 and [bar_w], growing with the count,
    and [bar_w] for the fullest bucket. *)
Lemma bar_str_length_bounds (c c' M : Z) :
  0 < M -> 0 <= c -> c <= c' -> c' <= M ->
  (String.length (bar_str c M) <= String.length (bar_str c' M))%nat /\
  (String.length (bar_str c' M) <= Z.to_nat bar_w)%nat /\
  String.length (bar_str M M) = Z.to_nat bar_w.
Proof.
  intros HM H0 Hc Hc'.
  rewrite !bar_str_length by lia.
  assert (Hfull : round (inject_Z M / inject_Z M * inject_Z bar_w) = bar_w).
  { rewrite (round_Qeq _ _ (bar_arg_full M HM)). apply round_inject_Z. }
  pose proof (round_mono _ _ (bar_arg_mono c c' M HM Hc)) as H1.
  pose proof (round_mono _ _ (bar_arg_mono c' M M HM Hc')) as H2.
  rewrite Hfull in *. repeat split; lia.
Qed.

(** A bar is empty exactly when the count is at most one eightieth of the
    largest count. *)
Lemma bar_str_empty_iff (c M : Z) :
  0 < M -> 0 <= c -> String.length (bar_str c M) = 0%nat <-> 80 * c <= M.
Proof.
  intros HM Hc. rewrite bar_str_length by lia.
  set (x := (inject_Z c / inject_Z M * inject_Z bar_w)%Q).
  assert (HMq : (0 < inject_Z M)%Q) by (change 0%Q with (inject_Z 0); now rewrite <- Zlt_Qlt).
  assert (Hx0 : (0 <= x)%Q).
  { unfold x. apply Qmult_le_0_compat; [|now vm_compute].
    unfold Qdiv. apply Qmult_le_0_compat.
    - change 0%Q with (inject_Z 0). now rewrite <- Zle_Qle.
    - apply Qlt_le_weak, Qinv_lt_0_compat, HMq. }
  assert (Hr0 : 0 <= round x).
  { pose proof (round_bounds x) as Hb.
    assert (0 <= Qfloor x); [|lia].
    change 0 with (Qfloor (inject_Z 0)). now apply Qfloor_resp_le. }
  assert (Hhalf : (x <= 1 # 2)%Q <-> 80 * c <= M).
  { assert (Ex : (x == inject_Z (80 * c) / inject_Z M * (1 # 2))%Q).
    { unfold x, bar_w. rewrite inject_Z_mult. change (inject_Z 80) with 80%Q.
      change (inject_Z 40) with 40%Q. field. apply inject_Z_nonzero. lia. }
    rewrite Ex. split; intros H.
    - assert (H' : (inject_Z (80 * c) / inject_Z M <= 1)%Q) by lra.
      assert (Ea : (inject_Z (80 * c) == inject_Z (80 * c) / inject_Z M * inject_Z M)%Q)
        by (field; apply inject_Z_nonzero; lia).
      assert (Hm : (inject_Z (80 * c) / inject_Z M * inject_Z M <= 1 * inject_Z M)%Q)
        by (apply Qmult_le_compat_r; [exact H' | now apply Qlt_le_weak]).
      rewrite <- Ea, Qmult_1_l in Hm. now rewrite <- Zle_Qle in Hm.
    - assert (H' : (inject_Z (80 * c) / inject_Z M <= 1)%Q).
      { apply Qle_shift_div_r; [exact HMq|]. rewrite Qmult_1_l. now rewrite <- Zle_Qle. }
      lra. }
  rewrite <- Hhalf, <- (round_zero_iff x Hx0). lia.
Qed.

(** The handler's interval rows with their counts and the largest count. *)
Lemma show_histogram_bars (st : state) :
  intervals st <> [] ->
  exists out M L,
    show_histogram st = Ok (out, 0) /\
    0 < M /\
    (forall b, 0 <= count_in (intervals st) b <= M) /\
    (exists b, b ∈ L /\ count_in (intervals st) b = M) /\
    interval_rows out
    = (fun b => (b, bar_str (count_in (intervals st) b) M, count_in (intervals st) b)) <$> L.
Proof.
  intros Hne.
  destruct (show_histogram_interval_rows st Hne) as (out & isec & Hsec & Hshow & Hrows).
  destruct (interval_histogram_rows _ Hne)
    as (isec' & mn & mx & M & Hsec' & (Hmn & Hmx & Hb) & ((bM & HbM) & Hall) & Hrows').
  rewrite Hsec in Hsec'. injection Hsec' as <-.
  assert (Hpos : 0 < M).
  { specialize (Hall (bucket_of mn)).
    assert (0 < count_in (intervals st) (bucket_of mn)); [|lia].
    apply occurrences_pos, list_elem_of_fmap. eauto. }
  exists out, M, (buckets_between mn mx ++ [bucket_of mx + HIST_BUCKET_MS]).
  split; [exact Hshow|]. split; [exact Hpos|].
  split; [intros b; split; [apply occurrences_nonneg | apply Hall]|].
  split; [|now rewrite Hrows].
  exists bM. split; [|exact HbM].
  assert (Hin : bM ∈ bucket_of <$> intervals st).
  { apply occurrences_pos. unfold count_in in HbM. lia. }
  apply list_elem_of_fmap in Hin as (x & -> & Hx).
  apply elem_of_app. left. apply bucket_in_between. now apply Hb.
Qed.

(** X12: In the interval histogram no bar is longer than 40 characters, a
    bucket with a larger count never has a shorter bar, and whenever an
    interval was recorded some row holds the largest count and its bar has
    exactly 40 characters. *)
Theorem X12_bar_lengths (st : state) :
  exists out M,
    show_histogram st = Ok (out, 0) /\
    (forall b bar c, (b, bar, c) ∈ interval_rows out ->
                     0 <= c <= M /\ (String.length bar <= 40)%nat) /\
    (forall b bar c b' bar' c',
        (b, bar, c) ∈ interval_rows out -> (b', bar', c') ∈ interval_rows out ->
        c <= c' -> (String.length bar <= String.length bar')%nat) /\
    (intervals st <> [] ->
     0 < M /\ exists b bar, (b, bar, M) ∈ interval_rows out /\ String.length bar = 40%nat).
Proof.
  destruct (intervals st) as [|iv ivs] eqn:Eiv.
  - unfold show_histogram. rewrite Eiv. exists [Text no_intervals_msg], 0.
    split; [reflexivity|]. cbn.
    split; [intros ? ? ? H; inversion H|].
    split; [intros ? ? ? ? ? ? H; inversion H | congruence].
  - destruct (show_histogram_bars st) as (out & M & L & Hshow & HM & Hc & (bM & HbM & HcM) & Hrows);
      [congruence|].
    rewrite Eiv in *. exists out, M. split; [exact Hshow|]. rewrite Hrows.
    split; [|split].
    + intros b bar c Hin. apply list_elem_of_fmap in Hin as (b0 & [= -> -> ->] & _).
      split; [apply Hc|].
      destruct (Hc b0) as [H0 H1].
      now destruct (bar_str_length_bounds _ _ M HM H0 (Z.le_refl _) H1) as (_ & H & _).
    + intros b bar c b' bar' c' Hin Hin' Hle.
      apply list_elem_of_fmap in Hin as (b0 & [= -> -> ->] & _).
      apply list_elem_of_fmap in Hin' as (b1 & [= -> -> ->] & _).
      destruct (Hc b0) as [H0 _]. destruct (Hc b1) as [_ H1].
      now destruct (bar_str_length_bounds _ _ M HM H0 Hle H1) as (H & _ & _).
    + intros _. split; [exact HM|]. exists bM, (bar_str M M). split.
      * apply list_elem_of_fmap. exists bM. rewrite HcM. auto.
      * now destruct (bar_str_length_bounds 0 M M HM (Z.le_refl _) ltac:(lia) (Z.le_refl _))
          as (_ & _ & H).
Qed.

(** X13: A bucket of the interval histogram is drawn with an empty bar
    exactly when its count is at most one eightieth of the largest count
    (Python's [round] sends a half to 0): so a bucket that is not empty can
    have an empty bar, as the bucket of the single 150 ms interval beside 81
    intervals of 50 ms. *)
Theorem X13_empty_bar_threshold :
  (forall st, intervals st <> [] ->
     exists out M,
       show_histogram st = Ok (out, 0) /\
       (exists b bar, (b, bar, M) ∈ interval_rows out) /\
       (forall b bar c, (b, bar, c) ∈ interval_rows out -> c <= M) /\
       (forall b bar c, (b, bar, c) ∈ interval_rows out ->
                        String.length bar = 0%nat <-> 80 * c <= M)) /\
  (exists out,
      interval_section (replicate 81 50%Q ++ [150%Q]) = Ok out /\
      interval_rows out = [(0, hashes 40, 81); (100, ""%string, 1); (200, ""%string, 0)]).
Proof.
  split.
  - intros st Hne.
    destruct (show_histogram_bars st Hne)
      as (out & M & L & Hshow & HM & Hc & (bM & HbM & HcM) & Hrows).
    exists out, M. split; [exact Hshow|]. rewrite Hrows. split; [|split].
    + exists bM, (bar_str M M). apply list_elem_of_fmap. exists bM. rewrite HcM. auto.
    + intros b bar c Hin. apply list_elem_of_fmap in Hin as (b0 & [= -> -> ->] & _).
      apply Hc.
    + intros b bar c Hin. apply list_elem_of_fmap in Hin as (b0 & [= -> -> ->] & _).
      apply bar_str_empty_iff; [exact HM | apply Hc].
  - eexists. split; vm_compute; reflexivity.
Qed.

Lemma X13_empty_bar_threshold_witness :
  let st := {| intervals := [50%Q; 250%Q]; power_deltas := []; window := [];
               prev_charge := 0; prev_rapl := 0; prev_time := 0; sample_num := 2 |} in
  intervals st <> [] /\
  exists out M,
    show_histogram st = Ok (out, 0) /\
    (exists b bar, (b, bar, M) ∈ interval_rows out) /\
    (forall b bar c, (b, bar, c) ∈ interval_rows out -> c <= M) /\
    (forall b bar c, (b, bar, c) ∈ interval_rows out ->
                     String.length bar = 0%nat <-> 80 * c <= M).
Proof.
  cbv zeta. split; [discriminate|].
  apply (proj1 X13_empty_bar_threshold). discriminate.
Defined.

(** ** The rows of the power-delta histogram *)

Lemma delta_iters_succ (hi b : Q) :
  Qle_bool b (hi + DELTA_BUCKET_W / 2) = true ->
  delta_iters hi b = S (delta_iters hi (b + DELTA_BUCKET_W)).
Proof.
  intros Hle. apply Qle_bool_iff in Hle. unfold delta_iters.
  assert (E : ((hi + DELTA_BUCKET_W / 2 - (b + DELTA_BUCKET_W)) / DELTA_BUCKET_W
               == (hi + DELTA_BUCKET_W / 2 - b) / DELTA_BUCKET_W + inject_Z (-1))%Q)
    by (unfold DELTA_BUCKET_W; field).
  rewrite (Qfloor_comp _ _ E), Qfloor_plus_Z.
  assert (0 <= Qfloor ((hi + DELTA_BUCKET_W / 2 - b) / DELTA_BUCKET_W)).
  { change 0 with (Qfloor (inject_Z 0)). apply Qfloor_resp_le.
    unfold DELTA_BUCKET_W in *. apply Qle_shift_div_l; [reflexivity |].
    change (inject_Z 0) with 0%Q. lra. }
  lia.
Qed.

Lemma delta_iters_zero (hi b : Q) :
  Qle_bool b (hi + DELTA_BUCKET_W / 2) = false -> delta_iters hi b = 0%nat.
Proof.
  intros Hle. unfold delta_iters.
  assert (Hlt : (hi + DELTA_BUCKET_W / 2 < b)%Q).
  { apply Qnot_le_lt. intros H. apply Qle_bool_iff in H. congruence. }
  assert (Qfloor ((hi + DELTA_BUCKET_W / 2 - b) / DELTA_BUCKET_W) < 0); [|lia].
  apply Z.lt_le_trans with (m := Qfloor (inject_Z 0) + 0); [|rewrite Qfloor_Z; lia].
  rewrite Qfloor_Z. cbn.
  pose proof (Qfloor_le ((hi + DELTA_BUCKET_W / 2 - b) / DELTA_BUCKET_W)) as Hf.
  assert (Hneg : ((hi + DELTA_BUCKET_W / 2 - b) / DELTA_BUCKET_W < 0)%Q).
  { unfold DELTA_BUCKET_W in *. apply Qlt_shift_div_r; [reflexivity | lra]. }
  assert (Hq : (inject_Z (Qfloor ((hi + DELTA_BUCKET_W / 2 - b) / DELTA_BUCKET_W))
                < inject_Z 0)%Q) by (change (inject_Z 0) with 0%Q; lra).
  now rewrite <- Zlt_Qlt in Hq.
Qed.

(** The [while] loop prints [delta_iters hi b] rows, the [k]-th for the
    bucket [b + k * DELTA_BUCKET_W], each with the count the dictionary
    holds for that bucket. *)
Lemma delta_rows_spec (dbuckets : gmap Qc Z) (dmax : Z) (hi b : Q) :
  dmax <> 0 ->
  exists rows,
    delta_rows dbuckets dmax hi b = Ok rows /\
    length rows = delta_iters hi b /\
    forall (k : nat) row, rows !! k = Some row ->
      exists b', row = DeltaRow b' (bar_str (default 0 (dbuckets !! Q2Qc b')) dmax)
                         (default 0 (dbuckets !! Q2Qc b')) /\
                 (b' == b + inject_Z (Z.of_nat k) * DELTA_BUCKET_W)%Q.
Proof.
  intros Hd. funelim (delta_rows dbuckets dmax hi b).
  - rewrite delta_row_eq by assumption. cbn [mbind result_bind].
    destruct (H (Text "") Hd) as (rows & -> & Hlen & Hk). cbn [mbind result_bind].
    eexists. split; [reflexivity|]. split.
    + cbn [length]. rewrite Hlen. symmetry. now apply delta_iters_succ.
    + intros [|k] row Hrow.
      * cbn in Hrow. injection Hrow as <-. eexists. split; [reflexivity|].
        cbn. ring.
      * cbn in Hrow. destruct (Hk k row Hrow) as (b' & -> & Hb').
        exists b'. split; [reflexivity|]. rewrite Hb', Nat2Z.inj_succ.
        unfold Z.succ. rewrite inject_Z_plus. change (inject_Z 1) with 1%Q. ring.
  - exists []. split; [reflexivity|]. split.
    + symmetry. now apply delta_iters_zero.
    + intros k row Hrow. discriminate.
Qed.

Lemma int_Qeq (x y : Q) : (x == y)%Q -> int x = int y.
Proof.
  intros E. unfold int. rewrite (Qleb_comp 0%Q 0%Q (Qeq_refl 0%Q) x y E).
  now rewrite (Qfloor_comp _ _ E), (Qceiling_comp _ _ E).
Qed.

(** The bucket of a power delta is a multiple of the bucket width, at most
    the delta and less than one width below it. *)
Lemma dbucket_of_bounds (d : Q) :
  exists k : Z,
    (dbucket_of d == inject_Z k * DELTA_BUCKET_W)%Q /\
    (dbucket_of d <= d)%Q /\ (d <= dbucket_of d + DELTA_BUCKET_W)%Q.
Proof.
  unfold dbucket_of. destruct (Qneg_bool d) eqn:Hn.
  - apply Qneg_bool_true in Hn. set (x := (- d / DELTA_BUCKET_W)%Q).
    assert (Ex : (d == - (x * DELTA_BUCKET_W))%Q) by (unfold x, DELTA_BUCKET_W; field).
    pose proof (Qfloor_le x) as Hf. pose proof (Qlt_floor x) as Hc.
    rewrite inject_Z_plus in Hc. change (inject_Z 1) with 1%Q in Hc.
    exists (- (Qfloor x + 1)). unfold DELTA_BUCKET_W in *.
    split; [rewrite inject_Z_opp, inject_Z_plus; reflexivity|]. split; lra.
  - apply Qneg_bool_false in Hn. unfold floor_bucket. set (x := (d / DELTA_BUCKET_W)%Q).
    assert (Ex : (d == x * DELTA_BUCKET_W)%Q) by (unfold x, DELTA_BUCKET_W; field).
    pose proof (Qfloor_le x) as Hf. pose proof (Qlt_floor x) as Hc.
    rewrite inject_Z_plus in Hc. change (inject_Z 1) with 1%Q in Hc.
    exists (Qfloor x). unfold DELTA_BUCKET_W in *. split; [reflexivity|]. split; lra.
Qed.

(** The number of power deltas of [pds] that the code puts into bucket
    [b]. *)
Lemma delta_rows_of_app (o1 o2 : list line) :
  delta_rows_of (o1 ++ o2) = delta_rows_of o1 ++ delta_rows_of o2.
Proof. unfold delta_rows_of. apply omap_app. Qed.

Lemma delta_rows_of_lookup (rows : list line) (k : nat) (b : Q) (c : Z) :
  Forall (fun l => exists b' bar count, l = DeltaRow b' bar count) rows ->
  delta_rows_of rows !! k = Some (b, c) ->
  exists b' bar, rows !! k = Some (DeltaRow b' bar c) /\ b = Qred b'.
Proof.
  intros Hall. revert k. induction Hall as [|l rows (b' & bar & c' & ->) _ IH]; intros k Hk.
  - discriminate.
  - change (delta_rows_of (DeltaRow b' bar c' :: rows))
      with ((Qred b', c') :: delta_rows_of rows) in Hk.
    destruct k as [|k].
    + cbn in Hk. injection Hk as <- <-. eauto.
    + cbn in Hk. apply IH in Hk. exact Hk.
Qed.

Lemma delta_rows_of_length (rows : list line) :
  Forall (fun l => exists b' bar count, l = DeltaRow b' bar count) rows ->
  length (delta_rows_of rows) = length rows.
Proof.
  induction 1 as [|l rows (b' & bar & c' & ->) _ IH]; [reflexivity|].
  change (delta_rows_of (DeltaRow b' bar c' :: rows))
    with ((Qred b', c') :: delta_rows_of rows).
  cbn [length]. now rewrite IH.
Qed.

(** The rows of the power-delta histogram: their number and, row by row,
    bucket and count. *)
Lemma delta_histogram_rows (pds : list Q) :
  pds <> [] ->
  exists out mn mx (Klo : Z),
    delta_section pds = Ok out /\
    sorted pds !! 0%nat = Some mn /\ last (sorted pds) = Some mx /\
    (dbucket_of mn == inject_Z Klo * DELTA_BUCKET_W)%Q /\
    Klo <= Qfloor (mx / DELTA_BUCKET_W) /\
    length (delta_rows_of out) = Z.to_nat (Qfloor (mx / DELTA_BUCKET_W) + 1 - Klo + 1) /\
    forall (k : nat) b c, delta_rows_of out !! k = Some (b, c) ->
      b = Qred (dbucket_of mn + inject_Z (Z.of_nat k) * DELTA_BUCKET_W) /\
      c = dcount_in pds b.
Proof.
  intros Hne.
  destruct (delta_section_rows pds Hne)
    as (mn & med & mx & lo & M & rows & Hmn & _ & Hmx & HM & _ & -> & Hrows & Hsec).
  destruct (sorted_min_max pds mn mx Hmn Hmx) as (Hmn_in & Hmx_in & Hb).
  destruct (dbucket_of_bounds mn) as (Klo & HKlo & Hlo1 & _).
  exists (delta_header (len pds) mn med mx (sumQ (sorted pds) / inject_Z (len pds))
          ++ rows ++ [Text ""%string]), mn, mx, Klo.
  split; [exact Hsec|]. split; [exact Hmn|]. split; [exact Hmx|]. split; [exact HKlo|].
  set (hi := (inject_Z (int (inject_Z (Qfloor (mx / DELTA_BUCKET_W)) + 1))
              * DELTA_BUCKET_W)%Q) in *.
  match type of Hrows with
  | delta_rows ?db ?dm _ ?b = _ =>
      destruct (delta_rows_spec db dm hi b) as (rows' & Hrows' & Hlen & Hk); [lia|]
  end.
  rewrite Hrows in Hrows'. injection Hrows' as <-.
  assert (Hall : Forall (fun l => exists b' bar count, l = DeltaRow b' bar count) rows).
  { eapply delta_rows_are_rows; [|exact Hrows]. lia. }
  assert (Hout : delta_rows_of
                   (delta_header (len pds) mn med mx (sumQ (sorted pds) / inject_Z (len pds))
                    ++ rows ++ [Text ""%string]) = delta_rows_of rows).
  { rewrite !delta_rows_of_app.
    change (delta_rows_of (delta_header _ _ _ _ _)) with (@nil (Q * Z)).
    change (delta_rows_of [Text ""%string]) with (@nil (Q * Z)).
    now rewrite app_nil_r. }
  rewrite Hout, (delta_rows_of_length _ Hall), Hlen.
  set (Khi := Qfloor (mx / DELTA_BUCKET_W) + 1).
  assert (Hhi : (hi == inject_Z Khi * DELTA_BUCKET_W)%Q).
  { unfold hi. rewrite (int_Qeq _ (inject_Z Khi)).
    - now rewrite int_inject_Z.
    - unfold Khi. rewrite inject_Z_plus. reflexivity. }
  assert (Hmxlt : (mx < inject_Z Khi * DELTA_BUCKET_W)%Q).
  { unfold Khi. pose proof (Qlt_floor (mx / DELTA_BUCKET_W)) as Hc.
    assert (Ex : (mx == mx / DELTA_BUCKET_W * DELTA_BUCKET_W)%Q)
      by (unfold DELTA_BUCKET_W; field).
    unfold DELTA_BUCKET_W in *. lra. }
  assert (Hmnmx : (mn <= mx)%Q) by (now apply Hb).
  assert (HK : Klo < Khi).
  { rewrite Zlt_Qlt. unfold DELTA_BUCKET_W in *. lra. }
  assert (Hfl : Qfloor ((hi + DELTA_BUCKET_W / 2 - dbucket_of mn) / DELTA_BUCKET_W)
                = Khi - Klo).
  { assert (E : ((hi + DELTA_BUCKET_W / 2 - dbucket_of mn) / DELTA_BUCKET_W
                 == inject_Z (Khi - Klo) + (1 # 2))%Q).
    { rewrite Hhi, HKlo. unfold Z.sub. rewrite inject_Z_plus, inject_Z_opp.
      unfold DELTA_BUCKET_W. field. }
    rewrite (Qfloor_comp _ _ E). apply Qfloor_unique.
    - lra.
    - rewrite inject_Z_plus. change (inject_Z 1) with 1%Q. lra. }
  unfold delta_iters. rewrite Hfl.
  split; [unfold Khi in HK; lia|]. split; [reflexivity|].
  intros k b c Hkb.
  destruct (delta_rows_of_lookup _ _ _ _ Hall Hkb) as (b' & bar & Hrow & ->).
  destruct (Hk k _ Hrow) as (b'' & [= -> _ ->] & Hb'').
  split; [now apply Qred_complete|].
  rewrite tally_all_get. unfold dcount_in. f_equal.
  apply Q2Qc_eq_iff. symmetry. apply Qred_correct.
Qed.

(** X14: For every non-empty power-delta history the power-delta histogram
    has one row per [DELTA_BUCKET_W] step from the bucket of the smallest
    delta up to the bucket one width above the floor bucket of the largest
    delta, at least two rows in all; each row shows the number of deltas
    the code assigned to its bucket. *)
Theorem X14_delta_histogram_rows (pds : list Q) :
  pds <> [] ->
  exists out mn mx,
    delta_section pds = Ok out /\
    (mn ∈ pds /\ mx ∈ pds /\ forall x, x ∈ pds -> (mn <= x <= mx)%Q) /\
    (2 <= length (delta_rows_of out))%nat /\
    (inject_Z (Z.of_nat (length (delta_rows_of out)) - 1) * DELTA_BUCKET_W
     == floor_bucket DELTA_BUCKET_W mx + DELTA_BUCKET_W - dbucket_of mn)%Q /\
    forall (k : nat) b c, delta_rows_of out !! k = Some (b, c) ->
      b = Qred (dbucket_of mn + inject_Z (Z.of_nat k) * DELTA_BUCKET_W) /\
      c = dcount_in pds b.
Proof.
  intros Hne.
  destruct (delta_histogram_rows pds Hne)
    as (out & mn & mx & Klo & Hsec & Hmn & Hmx & HKlo & HK & Hlen & Hrows).
  exists out, mn, mx. split; [exact Hsec|].
  split; [now apply sorted_min_max|].
  rewrite Hlen. split; [lia|]. split; [|exact Hrows].
  rewrite Z2Nat.id by lia.
  replace (Qfloor (mx / DELTA_BUCKET_W) + 1 - Klo + 1 - 1)
    with (Qfloor (mx / DELTA_BUCKET_W) + 1 + - Klo) by lia.
  unfold floor_bucket. rewrite !inject_Z_plus, inject_Z_opp, HKlo.
  change (inject_Z 1) with 1%Q. ring.
Qed.

Lemma X14_delta_histogram_rows_witness :
  let pds := [- (1 # 10); 1 # 4; 3 # 2]%Q in
  pds <> [] /\
  exists out mn mx,
    delta_section pds = Ok out /\
    (mn ∈ pds /\ mx ∈ pds /\ forall x, x ∈ pds -> (mn <= x <= mx)%Q) /\
    (2 <= length (delta_rows_of out))%nat /\
    (inject_Z (Z.of_nat (length (delta_rows_of out)) - 1) * DELTA_BUCKET_W
     == floor_bucket DELTA_BUCKET_W mx + DELTA_BUCKET_W - dbucket_of mn)%Q /\
    forall (k : nat) b c, delta_rows_of out !! k = Some (b, c) ->
      b = Qred (dbucket_of mn + inject_Z (Z.of_nat k) * DELTA_BUCKET_W) /\
      c = dcount_in pds b.
Proof.
  cbv zeta. split; [discriminate|].
  apply (X14_delta_histogram_rows [- (1 # 10); 1 # 4; 3 # 2]%Q). discriminate.
Defined.

Lemma dbucket_of_mono (x y : Q) : (x <= y)%Q -> (dbucket_of x <= dbucket_of y)%Q.
Proof.
  intros Hxy. unfold dbucket_of.
  destruct (Qneg_bool x) eqn:Hx, (Qneg_bool y) eqn:Hy.
  - assert (Hf : Qfloor (- y / DELTA_BUCKET_W) <= Qfloor (- x / DELTA_BUCKET_W)).
    { apply Qfloor_resp_le. unfold Qdiv. apply Qmult_le_compat_r; [lra | now vm_compute]. }
    rewrite Zle_Qle in Hf. unfold DELTA_BUCKET_W in *. lra.
  - apply Qneg_bool_true in Hx. apply Qneg_bool_false in Hy.
    pose proof (Qfloor_le (- x / DELTA_BUCKET_W)) as Hfx.
    assert (H0 : 0 <= Qfloor (- x / DELTA_BUCKET_W)).
    { change 0 with (Qfloor (inject_Z 0)). apply Qfloor_resp_le.
      unfold DELTA_BUCKET_W. apply Qle_shift_div_l; [reflexivity|].
      change (inject_Z 0) with 0%Q. lra. }
    assert (H1 : 0 <= Qfloor (y / DELTA_BUCKET_W)).
    { change 0 with (Qfloor (inject_Z 0)). apply Qfloor_resp_le.
      unfold DELTA_BUCKET_W. apply Qle_shift_div_l; [reflexivity|].
      change (inject_Z 0) with 0%Q. lra. }
    rewrite Zle_Qle in H0, H1. change (inject_Z 0) with 0%Q in H0, H1.
    unfold floor_bucket, DELTA_BUCKET_W in *. lra.
  - apply Qneg_bool_false in Hx. apply Qneg_bool_true in Hy. lra.
  - assert (Hf : Qfloor (x / DELTA_BUCKET_W) <= Qfloor (y / DELTA_BUCKET_W)).
    { apply Qfloor_resp_le. unfold Qdiv. apply Qmult_le_compat_r; [lra | now vm_compute]. }
    rewrite Zle_Qle in Hf. unfold floor_bucket, DELTA_BUCKET_W in *. lra.
Qed.

Section CountAll.
Context {K : Type} `{Countable K}.

Lemma sumZ_indicator_zero (b' : K) (L : list K) :
  b' ∉ L -> sumZ ((fun b => if decide (b = b') then 1 else 0) <$> L) = 0.
Proof.
  induction L as [|c L IH]; intros Hnin; [reflexivity|].
  cbn [fmap list_fmap]. rewrite sumZ_cons.
  fold (fmap (fun b => if decide (b = b') then 1 else 0) L).
  apply not_elem_of_cons in Hnin as [Hc Hnin].
  destruct (decide (c = b')); [congruence|]. rewrite IH by assumption. lia.
Qed.

Lemma sumZ_indicator_one (b' : K) (L : list K) :
  NoDup L -> b' ∈ L ->
  sumZ ((fun b => if decide (b = b') then 1 else 0) <$> L) = 1.
Proof.
  induction 1 as [|b L Hnin Hnd IH]; intros Hin; [inversion Hin|].
  cbn [fmap list_fmap]. rewrite sumZ_cons.
  fold (fmap (fun b => if decide (b = b') then 1 else 0) L).
  destruct (decide (b = b')) as [->|Hne].
  - rewrite sumZ_indicator_zero by assumption. lia.
  - apply elem_of_cons in Hin as [->|Hin]; [congruence|].
    rewrite IH by assumption. lia.
Qed.

(** Counting the keys [bs] over a duplicate-free list of keys that holds
    each of them counts every element once. *)
Lemma sumZ_occurrences_all (bs L : list K) :
  NoDup L -> (forall b, b ∈ bs -> b ∈ L) ->
  sumZ ((fun b => occurrences b bs) <$> L) = len bs.
Proof.
  intros Hnd. induction bs as [|b' bs IH]; intros Hin.
  - unfold occurrences, len. cbn. clear. induction L as [|c L IH]; [reflexivity|].
    cbn [fmap list_fmap]. rewrite sumZ_cons. exact IH.
  - assert (E : (fun b => occurrences b (b' :: bs))
                = (fun b => (if decide (b = b') then 1 else 0) + occurrences b bs)).
    { apply functional_extensionality. intros b. apply occurrences_cons. }
    rewrite E, sumZ_fmap_add, sumZ_indicator_one by (try assumption; apply Hin; left).
    rewrite IH by (intros b Hb; apply Hin; now right).
    unfold len. cbn [length]. lia.
Qed.
End CountAll.

(** The counts of the power-delta rows add up to the number of deltas. *)
Lemma delta_counts_sum (pds : list Q) (out : list line) :
  pds <> [] -> delta_section pds = Ok out ->
  sumZ ((delta_rows_of out).*2) = len pds.
Proof.
  intros Hne Hout.
  destruct (delta_histogram_rows pds Hne)
    as (out' & mn & mx & Klo & Hsec & Hmn & Hmx & HKlo & HK & Hlen & Hrows).
  rewrite Hout in Hsec. injection Hsec as <-.
  destruct (sorted_min_max pds mn mx Hmn Hmx) as (_ & _ & Hb).
  set (R := delta_rows_of out) in *.
  set (keys := (fun d => Q2Qc (dbucket_of d)) <$> pds).
  assert (Hc : R.*2 = (fun key => occurrences key keys) <$> ((fun r => Q2Qc r.1) <$> R)).
  { rewrite <- list_fmap_compose. apply list_fmap_ext.
    intros i [b c] Hi. destruct (Hrows i b c Hi) as [_ ->]. reflexivity. }
  rewrite Hc, sumZ_occurrences_all.
  - unfold keys, len. now rewrite length_fmap.
  - apply NoDup_alt. intros i j key Hi Hj.
    rewrite list_lookup_fmap in Hi, Hj.
    destruct (R !! i) as [[bi ci]|] eqn:Ei; [|discriminate].
    destruct (R !! j) as [[bj cj]|] eqn:Ej; [|discriminate].
    cbn in Hi, Hj. injection Hi as <-. injection Hj as Hj.
    destruct (Hrows i _ _ Ei) as [-> _]. destruct (Hrows j _ _ Ej) as [-> _].
    apply Qred_eq_iff in Hj. rewrite !Qred_correct in Hj.
    assert (Hij : (inject_Z (Z.of_nat i) == inject_Z (Z.of_nat j))%Q).
    { revert Hj. generalize (inject_Z (Z.of_nat i)), (inject_Z (Z.of_nat j)), (dbucket_of mn).
      unfold DELTA_BUCKET_W. intros qi qj a Hj. lra. }
    apply (proj1 (inject_Z_injective _ _)) in Hij. lia.
  - intros key Hkey. unfold keys in Hkey.
    apply list_elem_of_fmap in Hkey as (d & -> & Hd).
    destruct (dbucket_of_bounds d) as (Kd & HKd & Hd1 & _).
    destruct (Hb d Hd) as [Hmnd Hdmx].
    pose proof (dbucket_of_mono mn d Hmnd) as Hmono.
    assert (Hlo : Klo <= Kd).
    { rewrite Zle_Qle. unfold DELTA_BUCKET_W in *. lra. }
    assert (Hhi : Kd < Qfloor (mx / DELTA_BUCKET_W) + 1).
    { rewrite Zlt_Qlt, inject_Z_plus. change (inject_Z 1) with 1%Q.
      pose proof (Qlt_floor (mx / DELTA_BUCKET_W)) as Hc'.
      rewrite inject_Z_plus in Hc'. change (inject_Z 1) with 1%Q in Hc'.
      assert (Ex : (mx == mx / DELTA_BUCKET_W * DELTA_BUCKET_W)%Q)
        by (unfold DELTA_BUCKET_W; field).
      unfold DELTA_BUCKET_W in *. lra. }
    destruct (lookup_lt_is_Some_2 R (Z.to_nat (Kd - Klo))) as [[b c] Hk];
      [fold R in Hlen; rewrite Hlen; lia|].
    apply list_elem_of_lookup. exists (Z.to_nat (Kd - Klo)).
    rewrite list_lookup_fmap, Hk. cbn. f_equal.
    destruct (Hrows _ _ _ Hk) as [-> _].
    apply Q2Qc_eq_iff. rewrite Qred_correct, Z2Nat.id by lia.
    rewrite HKlo, HKd. unfold Z.sub. rewrite inject_Z_plus, inject_Z_opp. ring.
Qed.

Lemma delta_rows_of_no_delta (out : list line) :
  Forall (fun l => is_delta_line l = false) out -> delta_rows_of out = [].
Proof.
  induction 1 as [|l out Hl _ IH]; [reflexivity|].
  destruct l; try discriminate Hl; exact IH.
Qed.

(** A power delta is only recorded together with an interval. *)
Lemma run_deltas_within_intervals ss : forall st st' rs,
  run st ss = Ok (st', rs) ->
  len (power_deltas st) <= len (intervals st) ->
  len (power_deltas st') <= len (intervals st').
Proof.
  intros st st' rs H Hle.
  pose proof (run_reports _ _ _ _ H) as (_ & _ & Hiv).
  pose proof (run_power_deltas _ _ _ _ H) as (Hpd & _ & _).
  rewrite Hiv, Hpd. unfold len in *. rewrite !length_app, !length_fmap.
  pose proof (length_filter (fun r => AVG_WINDOW <= r_sample_num r) rs). lia.
Qed.

(** X15: In every run of the program the counts of the power-delta
    histogram rows are non-negative and add up to the number of recorded
    power deltas: the rows from lo to hi cover the bucket of every delta,
    negative ones included, each bucket once.  When no delta was recorded
    the handler prints no line of the power-delta histogram at all (no
    title, no summary, no row); when one was, it prints the title with the
    number of deltas and at least two rows. *)
Theorem X15_delta_counts_sum_to_samples
  (charge0 rapl0 : Z) (t0 : Q) (ss : list sample) :
  exists st rs out,
    run (init charge0 rapl0 t0) ss = Ok (st, rs) /\
    show_histogram st = Ok (out, 0) /\
    sumZ ((delta_rows_of out).*2) = len (power_deltas st) /\
    Forall (fun bc : Q * Z => 0 <= bc.2) (delta_rows_of out) /\
    (power_deltas st = [] ->
     Forall (fun l => is_delta_line l = false) out /\ delta_rows_of out = []) /\
    (power_deltas st <> [] ->
     DeltaTitle (len (power_deltas st)) AVG_WINDOW ∈ out /\
     (2 <= length (delta_rows_of out))%nat).
Proof.
  destruct (run_total ss (init charge0 rapl0 t0)) as (st & rs & Hrun).
  exists st, rs.
  pose proof (run_deltas_within_intervals _ _ _ _ Hrun) as Hle.
  specialize (Hle ltac:(cbn; lia)).
  unfold show_histogram.
  destruct (intervals st) as [|iv ivs] eqn:Eiv.
  - destruct (power_deltas st) as [|d ds]; [|unfold len in Hle; cbn [length] in Hle; lia].
    eexists. split; [exact Hrun|]. split; [reflexivity|]. split; [reflexivity|].
    split; [constructor|]. split; [|congruence].
    intros _. split; [|reflexivity]. repeat constructor.
  - destruct (interval_section_eq (iv :: ivs))
      as (imn & imed & imx & M & _ & _ & _ & _ & _ & _ & Hsec); [discriminate|].
    pose proof (interval_section_no_delta (iv :: ivs) _ ltac:(discriminate) Hsec) as Hnd.
    pose proof (delta_rows_of_no_delta _ Hnd) as Hnr.
    rewrite Hsec. cbn [mbind result_bind].
    destruct (power_deltas st) as [|d ds] eqn:Epd.
    + eexists. split; [exact Hrun|]. split; [reflexivity|].
      rewrite app_nil_r, Hnr.
      split; [reflexivity|]. split; [constructor|]. split; [|congruence].
      intros _. split; [exact Hnd | reflexivity].
    + destruct (delta_histogram_rows (d :: ds))
        as (dout & mn & mx & Klo & Hd & _ & _ & _ & HK & Hlen & Hrows); [discriminate|].
      pose proof (delta_counts_sum (d :: ds) _ ltac:(discriminate) Hd) as Hsum.
      destruct (delta_section_eq (d :: ds)) as (dmn & dmed & dmx & rows & _ & _ & _ & _ & Hd');
        [discriminate|].
      rewrite Hd. cbn [mbind result_bind].
      eexists. split; [exact Hrun|]. split; [reflexivity|].
      rewrite delta_rows_of_app, Hnr. cbn [app].
      split; [exact Hsum|]. split; [|split; [congruence|]].
      * apply Forall_lookup_2. intros k [b c] Hk.
        destruct (Hrows k b c Hk) as [_ ->]. cbn [snd].
        unfold dcount_in. apply occurrences_nonneg.
      * intros _. split; [|rewrite Hlen; lia].
        apply elem_of_app. right. rewrite Hd' in Hd. injection Hd as <-.
        unfold delta_header. cbn [app]. right. left.
Qed.
